(** * conditions: a boolean condition language

    A shallow embedding of the Go package [conditions] (token model,
    parser over [text/scanner] tokens, tree-walking evaluator and the
    [Variables] query) together with the properties stated about it.

    Conventions of the embedding.
    - A Go function returning [(T, error)] returns a pair whose second
      component is [option error]; [None] is the nil error.
    - A run-time panic (nil pointer dereference, failed type assertion,
      slice bounds) is the [Panic] outcome of the [go] monad.
    - [float64] is Rocq's primitive binary64 [float].
    - [map[string]interface{}] is [gmap string HostValue].
    - Loops that the source does not bound ([for { ... }] over scanner
      tokens) take a [fuel] argument; running out of fuel is [None]. *)

From Stdlib Require Import ZArith List Ascii String Floats Lia.
From stdpp Require Import gmap strings.

Local Open Scope string_scope.
#[local] Set Warnings "-register-all,-clear-no-such-hyp".

(** ** Tokens (token.go) *)

(** Modelled from the spec: the members [ARRAY], [XOR], [NAND], [IN],
    [NOTIN], [EREG], [NEREG], [INTERSECTS] and [HAS] and their place in the
    enumeration.  The parser and the evaluator use them, the token.go of
    the sources declares only the other members; the spec lists [ARRAY]
    with the literals and the others with the operators, so they stand
    between [literalBegin] and [literalEnd], and between [operatorBegin]
    and [operatorEnd].  The other members are in the [iota] order of
    token.go. *)
Inductive Token : Set :=
| ILLEGAL | EOF
| literalBegin | IDENT | NUMBER | STRING | TRUE | FALSE | ARRAY | literalEnd
| operatorBegin
| AND | OR | XOR | NAND | EQ | NEQ | LT | LTE | GT | GTE
| IN | NOTIN | EREG | NEREG | INTERSECTS | HAS
| operatorEnd
| LPAREN | RPAREN.

#[global] Instance Token_eq_dec : EqDecision Token.
Proof. solve_decision. Defined.

(** The integer value [iota] gives to a token, in the order above. *)
Definition tokenValue (tok : Token) : Z :=
  match tok with
  | ILLEGAL => 0 | EOF => 1
  | literalBegin => 2 | IDENT => 3 | NUMBER => 4 | STRING => 5
  | TRUE => 6 | FALSE => 7 | ARRAY => 8 | literalEnd => 9
  | operatorBegin => 10
  | AND => 11 | OR => 12 | XOR => 13 | NAND => 14 | EQ => 15 | NEQ => 16
  | LT => 17 | LTE => 18 | GT => 19 | GTE => 20
  | IN => 21 | NOTIN => 22 | EREG => 23 | NEREG => 24
  | INTERSECTS => 25 | HAS => 26
  | operatorEnd => 27
  | LPAREN => 28 | RPAREN => 29
  end.

(** Modelled from the spec: the arms of [Precedence] for [XOR], [NAND],
    [IN], [NOTIN], [EREG], [NEREG], [INTERSECTS] and [HAS] (the token.go
    that declares these operators is not part of the sources; the spec
    gives AND/XOR/NAND level 2 and comparisons, set and regex operators
    level 3).  The arms for [OR], [AND], [EQ], [NEQ], [LT], [LTE], [GT],
    [GTE] and the default are those of token.go. *)
Definition Precedence (tok : Token) : Z :=
  match tok with
  | OR => 1
  | AND | XOR | NAND => 2
  | EQ | NEQ | LT | LTE | GT | GTE
  | IN | NOTIN | EREG | NEREG | INTERSECTS | HAS => 3
  | _ => 0
  end.

(** [tok > operatorBegin && tok < operatorEnd] *)
Definition isOperator (tok : Token) : bool :=
  (tokenValue operatorBegin <? tokenValue tok)%Z
  && (tokenValue tok <? tokenValue operatorEnd)%Z.

(** ** Expressions *)

(** The [Expr] interface.  [NilExpr] is the nil interface value; the other
    constructors are the node types that implement the interface. *)
Inductive Expr : Set :=
| NilExpr
| BooleanLiteral (Val : bool)
| NumberLiteral (Val : float)
| StringLiteral (Val : string)
| SliceStringLiteral (Val : list string)
| SliceNumberLiteral (Val : list float)
| VarRef (Val : string)
| ParenExpr (inner : Expr)
| BinaryExpr (LHS : Expr) (Op : Token) (RHS : Expr).

(** [reflect.Kind], as far as the evaluator distinguishes kinds. *)
Inductive Kind : Set :=
| KBool | KInt | KInt8 | KInt16 | KInt32 | KInt64
| KUint | KUint8 | KUint16 | KUint32 | KUint64
| KFloat32 | KFloat64 | KString | KSlice | KMap | KStruct | KPtr | KOtherKind.

(** A value of type [interface{}] stored in the binding map.  [HNil] is the
    nil interface; [HOther k] is a value of kind [k] whose dynamic type is
    none of the types the evaluator asserts ([int], [int32], [int64],
    [float32], [float64], [string], [bool], [[]interface{}], [[]string]),
    for instance a [uint], a [[]int] or a named integer type. *)
Inductive HostValue : Type :=
| HNil
| HInt (z : Z) | HInt32 (z : Z) | HInt64 (z : Z)
| HFloat32 (f : float) | HFloat64 (f : float)
| HString (s : string)
| HBool (b : bool)
| HSliceIface (l : list HostValue)
| HSliceString (l : list string)
| HOther (k : Kind).

(** A decoded JSON value, as [encoding/json] stores it in [interface{}]. *)
Inductive JSONValue : Type :=
| JString (s : string)
| JNumber (f : float)
| JBool (b : bool)
| JNull
| JArray (l : list JSONValue)
| JObject (l : list (string * JSONValue)).

(** The errors built by the package; one constructor per message. *)
Inductive error : Type :=
| ErrNilExpression                       (* Provided expression is nil *)
| ErrUnexpectedRoot (result : Expr)      (* Unexpected result of the root expression *)
| ErrArgumentNotFound (index : string)   (* argument: %v not found *)
| ErrUnsupportedArgument (name : string) (k : Kind)
| ErrUnsupportedOperator (op : Token)
| ErrWrap (cause : error) (message : string)   (* errors.Wrap(err, message) *)
| ErrNotBoolean (e : Expr)
| ErrNotString (e : Expr)
| ErrNotNumber (e : Expr)
| ErrNotSliceNumber (e : Expr)
| ErrNotSliceString (e : Expr)
| ErrCompareString                       (* Cannot compare string with non-string *)
| ErrCompareNumber                       (* Cannot compare number with non-number *)
| ErrCompareBoolean                      (* Cannot compare boolean with non-boolean *)
| ErrUnknownLiteral (e : Expr)           (* Can not evaluate Literal of unknow type *)
| ErrIllegal (tx : string)               (* ILLEGAL %s *)
| ErrMissingParen                        (* Missing ) *)
| ErrParseNumber                         (* Unable to parse number *)
| ErrEmptySlice                          (* Empty Slice not castable *)
| ErrSliceUnknownType (v : JSONValue)    (* Slice of unknow type *)
| ErrParsing (tok : Token) (lit : string)
| ErrArgs                                (* Args error *)
| ErrLibrary (message : string).         (* an error of regexp, json or strconv *)

(** The causes of a run-time panic. *)
Inductive panic : Set :=
| NilDereference
| TypeAssertion
| SliceBounds.

(** Outcome of a Go call: it returns, or it panics. *)
Inductive go (A : Type) : Type :=
| Ret (a : A)
| Panic (p : panic).
Arguments Ret {A} a.
Arguments Panic {A} p.

#[global] Instance go_ret : MRet go := fun A a => Ret a.
#[global] Instance go_bind : MBind go := fun A B k m =>
  match m with
  | Ret a => k a
  | Panic p => Panic p
  end.

(** The library functions the package calls. *)
Record Library : Type := {
  (** [regexp.MatchString(pattern, s)] *)
  regexp_MatchString : string -> string -> bool * option error;
  (** [json.Unmarshal(data, &v)] for [v] an empty [[]interface{}]: the
      slice after the call, and the error. *)
  json_Unmarshal : string -> list JSONValue * option error;
  (** [strconv.ParseFloat(s, 64)] *)
  strconv_ParseFloat : string -> float * option error
}.

(** ** Evaluator (evaluator.go) *)

(** [float64(n)] for an integer [n]: rounding to nearest, ties to even. *)
Definition float64_of_int (z : Z) : float :=
  SF2Prim (binary_normalize prec emax z 0 false).

(** [var falseExpr = &BooleanLiteral{Val: false}] *)
Definition falseExpr : Expr := BooleanLiteral false.

Definition getBoolean (e : Expr) : bool * option error :=
  match e with
  | BooleanLiteral v => (v, None)
  | _ => (false, Some (ErrNotBoolean e))
  end.

Definition getString (e : Expr) : string * option error :=
  match e with
  | StringLiteral v => (v, None)
  | _ => (EmptyString, Some (ErrNotString e))
  end.

Definition getSliceNumber (e : Expr) : list float * option error :=
  match e with
  | SliceNumberLiteral v => (v, None)
  | _ => ([], Some (ErrNotSliceNumber e))
  end.

Definition getSliceString (e : Expr) : list string * option error :=
  match e with
  | SliceStringLiteral v => (v, None)
  | _ => ([], Some (ErrNotSliceString e))
  end.

Definition getNumber (e : Expr) : float * option error :=
  match e with
  | NumberLiteral v => (v, None)
  | _ => (0%float, Some (ErrNotNumber e))
  end.

(** The operator handlers return a pointer to a [BooleanLiteral] and an
    error; the pointer is [None] when the handler returns [nil]. *)
Definition handled : Type := option bool * option error.

(** The four boolean connectives share one shape: both operands through
    [getBoolean], a nil pointer with the error of the first that fails. *)
Definition applyBoolean (f : bool -> bool -> bool) (l r : Expr) : handled :=
  match getBoolean l with
  | (_, Some err) => (None, Some err)
  | (a, None) =>
      match getBoolean r with
      | (_, Some err) => (None, Some err)
      | (b, None) => (Some (f a b), None)
      end
  end.

Definition applyAND : Expr -> Expr -> handled := applyBoolean andb.
Definition applyOR : Expr -> Expr -> handled := applyBoolean orb.
(** [a != b] on booleans *)
Definition applyXOR : Expr -> Expr -> handled := applyBoolean xorb.
(** [!(a && b)] *)
Definition applyNAND : Expr -> Expr -> handled :=
  applyBoolean (fun a b => negb (a && b)).

(** [applyGT], [applyGTE] and [applyLT]: both operands through [getNumber],
    a nil pointer with the error of the first that fails. *)
Definition applyCompare (f : float -> float -> bool) (l r : Expr) : handled :=
  match getNumber l with
  | (_, Some err) => (None, Some err)
  | (a, None) =>
      match getNumber r with
      | (_, Some err) => (None, Some err)
      | (b, None) => (Some (f a b), None)
      end
  end.

Definition applyGT : Expr -> Expr -> handled :=
  applyCompare (fun a b => PrimFloat.ltb b a).
Definition applyGTE : Expr -> Expr -> handled :=
  applyCompare (fun a b => PrimFloat.leb b a).
Definition applyLT : Expr -> Expr -> handled :=
  applyCompare PrimFloat.ltb.

(** [applyLTE] returns [falseExpr], not nil, with its errors. *)
Definition applyLTE (l r : Expr) : handled :=
  match getNumber l with
  | (_, Some err) => (Some false, Some err)
  | (a, None) =>
      match getNumber r with
      | (_, Some err) => (Some false, Some err)
      | (b, None) => (Some (PrimFloat.leb a b), None)
      end
  end.

Definition applyEQ (l r : Expr) : handled :=
  match getString l with
  | (as_, None) =>
      match getString r with
      | (_, Some _) => (Some false, Some ErrCompareString)
      | (bs, None) => (Some (String.eqb as_ bs), None)
      end
  | (_, Some _) =>
  match getNumber l with
  | (an, None) =>
      match getNumber r with
      | (_, Some _) => (Some false, Some ErrCompareNumber)
      | (bn, None) => (Some (PrimFloat.eqb an bn), None)
      end
  | (_, Some _) =>
  match getBoolean l with
  | (ab, None) =>
      match getBoolean r with
      | (_, Some _) => (Some false, Some ErrCompareBoolean)
      | (bb, None) => (Some (Bool.eqb ab bb), None)
      end
  | (_, Some _) => (Some false, None)
  end end end.

Definition applyNQ (l r : Expr) : handled :=
  match getString l with
  | (as_, None) =>
      match getString r with
      | (_, Some _) => (Some false, Some ErrCompareString)
      | (bs, None) => (Some (negb (String.eqb as_ bs)), None)
      end
  | (_, Some _) =>
  match getNumber l with
  | (an, None) =>
      match getNumber r with
      | (_, Some _) => (Some false, Some ErrCompareNumber)
      | (bn, None) => (Some (negb (PrimFloat.eqb an bn)), None)
      end
  | (_, Some _) =>
  match getBoolean l with
  | (ab, None) =>
      match getBoolean r with
      | (_, Some _) => (Some false, Some ErrCompareBoolean)
      | (bb, None) => (Some (negb (Bool.eqb ab bb)), None)
      end
  | (_, Some _) => (Some false, None)
  end end end.

(** [found = false; for _, e := range b { if a == e { found = true } }] *)
Definition rangeFound {A} (eq : A -> A -> bool) (a : A) (b : list A) : bool :=
  fold_left (fun found e => if eq a e then true else found) b false.

Definition applyIN (l r : Expr) : handled :=
  match l with
  | StringLiteral _ =>
      match getString l with
      | (_, Some err) => (None, Some err)
      | (a, None) =>
          match getSliceString r with
          | (_, Some err) => (None, Some err)
          | (b, None) => (Some (rangeFound String.eqb a b), None)
          end
      end
  | NumberLiteral _ =>
      match getNumber l with
      | (_, Some err) => (None, Some err)
      | (a, None) =>
          match getSliceNumber r with
          | (_, Some err) => (None, Some err)
          | (b, None) => (Some (rangeFound PrimFloat.eqb a b), None)
          end
      end
  | _ => (None, Some (ErrUnknownLiteral l))
  end.

(** [result, err := applyIN(l, r); result.Val = !result.Val]: the
    assignment dereferences [result], whatever [err] is.  A non-nil
    [result] is the literal [applyIN] has just allocated, so the assignment
    changes no node of the tree and not [falseExpr]. *)
Definition applyNOTIN (l r : Expr) : go handled :=
  let '(result, err) := applyIN l r in
  match result with
  | None => Panic NilDereference
  | Some v => Ret (Some (negb v), err)
  end.

(** The inner loop of [applyINTERSECTS] and the loop of [applyHAS]:
    return at the first element equal to [val]. *)
Fixpoint rangeAny (val : string) (right_ : list string) : bool :=
  match right_ with
  | [] => false
  | rightVal :: rest => if String.eqb val rightVal then true else rangeAny val rest
  end.

Fixpoint rangeIntersects (left_ right_ : list string) : bool :=
  match left_ with
  | [] => false
  | val :: rest => if rangeAny val right_ then true else rangeIntersects rest right_
  end.

Definition applyINTERSECTS (l r : Expr) : handled :=
  match getSliceString l with
  | (_, Some err) =>
      (Some false,
       Some (ErrWrap err "left operand of INTERSECTS operator must have string slice type"))
  | (left_, None) =>
      match getSliceString r with
      | (_, Some err) =>
          (Some false,
           Some (ErrWrap err "right operand of INTERSECTS operator must have string slice type"))
      | (right_, None) => (Some (rangeIntersects left_ right_), None)
      end
  end.

Definition applyHAS (l r : Expr) : handled :=
  match getSliceString l with
  | (_, Some err) =>
      (Some false,
       Some (ErrWrap err "left operand of HAS operator must have string slice type"))
  | (left_, None) =>
      match getString r with
      | (_, Some err) =>
          (Some false, Some (ErrWrap err "right operand of HAS operator must be a string"))
      | (right_, None) => (Some (rangeAny right_ left_), None)
      end
  end.

(** [reflect.TypeOf(v).Kind()]: [reflect.TypeOf] of the nil interface is
    the nil [Type], and the call of [Kind] on it panics. *)
Definition kindOf (v : HostValue) : go Kind :=
  match v with
  | HNil => Panic NilDereference
  | HInt _ => Ret KInt
  | HInt32 _ => Ret KInt32
  | HInt64 _ => Ret KInt64
  | HFloat32 _ => Ret KFloat32
  | HFloat64 _ => Ret KFloat64
  | HString _ => Ret KString
  | HBool _ => Ret KBool
  | HSliceIface _ => Ret KSlice
  | HSliceString _ => Ret KSlice
  | HOther k => Ret k
  end.

(** [for _, value := range slice { if s, ok := value.(string); ok {
    stringsSlice = append(stringsSlice, s) } }] *)
Fixpoint stringsOf (slice : list HostValue) : list string :=
  match slice with
  | [] => []
  | HString s :: rest => s :: stringsOf rest
  | _ :: rest => stringsOf rest
  end.

(** The [*VarRef] case of [evaluateSubtree] once the binding is found:
    the switch on the kind of the bound value.  A single-valued type
    assertion such as [args[index].(int)] panics when the dynamic type is
    not exactly the asserted one. *)
Definition resolve (name : string) (v : HostValue) : go (Expr * option error) :=
  kind ← kindOf v;
  match kind with
  | KInt =>
      match v with
      | HInt z => Ret (NumberLiteral (float64_of_int z), None)
      | _ => Panic TypeAssertion
      end
  | KInt32 =>
      match v with
      | HInt32 z => Ret (NumberLiteral (float64_of_int z), None)
      | _ => Panic TypeAssertion
      end
  | KInt64 =>
      match v with
      | HInt64 z => Ret (NumberLiteral (float64_of_int z), None)
      | _ => Panic TypeAssertion
      end
  | KFloat32 =>
      match v with
      | HFloat32 f => Ret (NumberLiteral f, None)
      | _ => Panic TypeAssertion
      end
  | KFloat64 =>
      match v with
      | HFloat64 f => Ret (NumberLiteral f, None)
      | _ => Panic TypeAssertion
      end
  | KString =>
      match v with
      | HString s => Ret (StringLiteral s, None)
      | _ => Panic TypeAssertion
      end
  | KBool =>
      match v with
      | HBool b => Ret (BooleanLiteral b, None)
      | _ => Panic TypeAssertion
      end
  | KSlice =>
      match v with
      | HSliceIface slice => Ret (SliceStringLiteral (stringsOf slice), None)
      | HSliceString l => Ret (SliceStringLiteral l, None)
      | _ => Ret (falseExpr, Some (ErrUnsupportedArgument name kind))
      end
  | _ => Ret (falseExpr, Some (ErrUnsupportedArgument name kind))
  end.

(** A handler's pointer seen as an [Expr].  A nil pointer only ever comes
    with a non-nil error (lemma [applyOperator_nil_pointer] below), and
    every caller tests the error first, so the image of [None] is never
    inspected. *)
Definition exprOfPointer (p : option bool) : Expr :=
  match p with
  | Some v => BooleanLiteral v
  | None => NilExpr
  end.

Section Evaluator.

Variable lib : Library.

Definition applyEREG (l r : Expr) : handled :=
  match getString l with
  | (_, Some err) => (None, Some err)
  | (a, None) =>
      match getString r with
      | (_, Some err) => (None, Some err)
      | (b, None) =>
          let '(match_, err) := regexp_MatchString lib b a in
          (Some match_, err)
      end
  end.

(** [result, err := applyEREG(l, r); result.Val = !result.Val] *)
Definition applyNEREG (l r : Expr) : go handled :=
  let '(result, err) := applyEREG l r in
  match result with
  | None => Panic NilDereference
  | Some v => Ret (Some (negb v), err)
  end.

Definition applyOperator (op : Token) (l r : Expr) : go handled :=
  match op with
  | AND => Ret (applyAND l r)
  | OR => Ret (applyOR l r)
  | EQ => Ret (applyEQ l r)
  | NEQ => Ret (applyNQ l r)
  | GT => Ret (applyGT l r)
  | GTE => Ret (applyGTE l r)
  | LT => Ret (applyLT l r)
  | LTE => Ret (applyLTE l r)
  | XOR => Ret (applyXOR l r)
  | NAND => Ret (applyNAND l r)
  | IN => Ret (applyIN l r)
  | NOTIN => applyNOTIN l r
  | EREG => Ret (applyEREG l r)
  | NEREG => applyNEREG l r
  | INTERSECTS => Ret (applyINTERSECTS l r)
  | HAS => Ret (applyHAS l r)
  | _ => Ret (Some false, Some (ErrUnsupportedOperator op))
  end.

(** In the [*VarRef] case the test [if err != nil] comes before any
    assignment to [err] and never holds; it is left out. *)
Fixpoint evaluateSubtree (expr : Expr) (args : gmap string HostValue)
  : go (Expr * option error) :=
  match expr with
  | NilExpr => Ret (falseExpr, Some ErrNilExpression)
  | ParenExpr n => evaluateSubtree n args
  | BinaryExpr lhs op rhs =>
      '(lv, err) ← evaluateSubtree lhs args;
      match err with
      | Some err => Ret (falseExpr, Some err)
      | None =>
          '(rv, err) ← evaluateSubtree rhs args;
          match err with
          | Some err => Ret (falseExpr, Some err)
          | None =>
              '(result, err) ← applyOperator op lv rv;
              Ret (exprOfPointer result, err)
          end
      end
  | VarRef index =>
      match args !! index with
      | None => Ret (falseExpr, Some (ErrArgumentNotFound index))
      | Some v => resolve index v
      end
  | _ => Ret (expr, None)
  end.

Definition Evaluate (expr : Expr) (args : gmap string HostValue)
  : go (bool * option error) :=
  match expr with
  | NilExpr => Ret (false, Some ErrNilExpression)
  | _ =>
      '(result, err) ← evaluateSubtree expr args;
      match err with
      | Some err => Ret (false, Some err)
      | None =>
          match result with
          | BooleanLiteral v => Ret (v, None)
          | _ => Ret (false, Some (ErrUnexpectedRoot result))
          end
      end
  end.

End Evaluator.

(** ** Parser (parser.go) *)

(** A token of [text/scanner]: the rune [Scan] returns and [TokenText].
    The token text, [tt] in the source, is written [txt] here. *)
Definition rune : Set := Z.

Definition scanner_EOF : rune := (-1)%Z.
Definition scanner_Ident : rune := (-2)%Z.
Definition scanner_Int : rune := (-3)%Z.
Definition scanner_Float : rune := (-4)%Z.
Definition scanner_Char : rune := (-5)%Z.
Definition scanner_String : rune := (-6)%Z.
Definition scanner_RawString : rune := (-7)%Z.
Definition scanner_Comment : rune := (-8)%Z.

(** The rune of a character literal such as ['(']. *)
Definition chr (c : ascii) : rune := Z.of_nat (nat_of_ascii c).

(** The parser: the tokens the scanner has still to deliver, and the
    one-token buffer. *)
Record Parser : Set := mkParser {
  s : list (rune * string);
  buf_tok : rune;
  buf_tt : string;
  buf_n : Z
}.

(** [NewParser]: a scanner over the tokens of the input, an empty buffer. *)
Definition NewParser (tokens : list (rune * string)) : Parser :=
  mkParser tokens 0%Z EmptyString 0%Z.

(** [p.s.Scan(), p.s.TokenText()]: at the end of the input [Scan] keeps
    returning [EOF], with an empty token text. *)
Definition scanner_Scan (src : list (rune * string))
  : rune * string * list (rune * string) :=
  match src with
  | [] => (scanner_EOF, EmptyString, [])
  | (t, txt) :: rest => (t, txt, rest)
  end.

Definition scan (p : Parser) : rune * string * Parser :=
  if negb (buf_n p =? 0)%Z then
    (buf_tok p, buf_tt p, mkParser (s p) (buf_tok p) (buf_tt p) 0%Z)
  else
    let '(t, txt, rest) := scanner_Scan (s p) in
    (t, txt, mkParser rest t txt (buf_n p)).

Definition unscan (p : Parser) : Parser :=
  mkParser (s p) (buf_tok p) (buf_tt p) 1%Z.

(** [scanArray]: [sep] is never assigned and stays empty. *)
Fixpoint scanArray (fuel : nat) (txt : string) (p : Parser)
  : option (rune * string * option error * Parser) :=
  match fuel with
  | O => None
  | S fuel =>
      let '(t, ttTmp, p) := scan p in
      if (t =? chr "]")%Z then Some (t, txt, None, p)
      else scanArray fuel (txt +:+ EmptyString +:+ ttTmp) p
  end.

(** [scanArg]: the loop state is the text [tt] read so far and [sep]. *)
Fixpoint scanArgLoop (fuel : nat) (txt sep : string) (p : Parser)
  : option (rune * string * option error * Parser) :=
  match fuel with
  | O => None
  | S fuel =>
      let '(t, ttTmp, p) := scan p in
      let txt := txt +:+ sep +:+ ttTmp in
      if (t =? chr "@")%Z then scanArgLoop fuel txt sep p
      else
        let '(t, _, p) := scan p in
        if (t =? chr "]")%Z then
          let '(ti, _, p) := scan p in
          if (ti =? chr "[")%Z then scanArgLoop fuel txt "." p
          else Some (t, txt, None, unscan p)
        else Some (t, txt, Some ErrArgs, p)
  end.

Definition scanArg (fuel : nat) (p : Parser)
  : option (rune * string * option error * Parser) :=
  scanArgLoop fuel EmptyString EmptyString p.

(** The loop of the ['/'] case of [scanWithMapping]. *)
Fixpoint scanPattern (fuel : nat) (txt : string) (p : Parser)
  : option (Token * string * Parser) :=
  match fuel with
  | O => None
  | S fuel =>
      let '(t, ttTmp, p) := scan p in
      let txt := txt +:+ ttTmp in
      if (t =? chr "/")%Z then Some (STRING, txt, p)
      else scanPattern fuel txt p
  end.

(** [strings.ToUpper] on ASCII text. *)
Definition upperAscii (c : ascii) : ascii :=
  let n := nat_of_ascii c in
  if (97 <=? n)%nat && (n <=? 122)%nat then ascii_of_nat (n - 32) else c.

Fixpoint ToUpper (str : string) : string :=
  match str with
  | EmptyString => EmptyString
  | String c rest => String (upperAscii c) (ToUpper rest)
  end.

(** [strings.HasPrefix] *)
Definition HasPrefix (str pre : string) : bool := String.prefix pre str.

(** The [scanner.Ident] case of [scanWithMapping]. *)
Definition mapIdent (txt : string) (p : Parser) : Token * string * Parser :=
  let ttU := ToUpper txt in
  if String.eqb ttU "AND" then (AND, txt, p)
  else if String.eqb ttU "OR" then (OR, txt, p)
  else if String.eqb ttU "XOR" then (XOR, txt, p)
  else if String.eqb ttU "NAND" then (NAND, txt, p)
  else if String.eqb ttU "IN" then (IN, txt, p)
  else if String.eqb ttU "INTERSECTS" then (INTERSECTS, txt, p)
  else if String.eqb ttU "HAS" then (HAS, txt, p)
  else if String.eqb ttU "NOT" then
    let '(_, tmp, p) := scan p in
    if String.eqb (ToUpper tmp) "IN" then (NOTIN, "NOT IN", p)
    else (ILLEGAL, txt, unscan p)
  else if String.eqb ttU "TRUE" then (TRUE, txt, p)
  else if String.eqb ttU "FALSE" then (FALSE, txt, p)
  else if HasPrefix ttU "C" || HasPrefix ttU "P" then (IDENT, txt, p)
  else (ILLEGAL, txt, p).

Definition scanWithMapping (fuel : nat) (p : Parser)
  : option (Token * string * Parser) :=
  let '(t, txt, p) := scan p in
  if (t =? scanner_EOF)%Z then Some (EOF, txt, p)
  else if (t =? chr "(")%Z then Some (LPAREN, txt, p)
  else if (t =? chr ")")%Z then Some (RPAREN, txt, p)
  else if (t =? chr "-")%Z then
    let '(t, txt, p) := scan p in
    if (t =? scanner_Float)%Z || (t =? scanner_Int)%Z
    then Some (NUMBER, "-" +:+ txt, p)
    else Some (ILLEGAL, txt, p)
  else if (t =? scanner_Float)%Z || (t =? scanner_Int)%Z then Some (NUMBER, txt, p)
  else if (t =? chr "$")%Z then
    let '(t, txt, p) := scan p in
    if (t =? scanner_Float)%Z || (t =? scanner_Int)%Z
    then Some (IDENT, "$" +:+ txt, p)
    else Some (ILLEGAL, txt, p)
  else if (t =? chr "[")%Z then
    match scanArg fuel p with
    | None => None
    | Some (_, txt, Some _, p) =>
        match scanArray fuel txt (unscan p) with
        | None => None
        | Some (_, txt, None, p) => Some (ARRAY, txt, p)
        | Some (_, txt, Some _, p) => Some (ILLEGAL, txt, p)
        end
    | Some (_, txt, None, p) => Some (IDENT, txt, p)
    end
  else if (t =? chr "!")%Z then
    let '(t, txt, p) := scan p in
    if (t =? chr "=")%Z then Some (NEQ, "!=", p)
    else if (t =? chr "~")%Z then Some (NEREG, "!~", p)
    else Some (ILLEGAL, txt, p)
  else if (t =? chr ">")%Z then
    let '(t, txt, p) := scan p in
    if (t =? chr "=")%Z then Some (GTE, ">=", p)
    else Some (GT, ">", unscan p)
  else if (t =? chr "<")%Z then
    let '(t, txt, p) := scan p in
    if (t =? chr "=")%Z then Some (LTE, "<=", p)
    else Some (LT, "<", unscan p)
  else if (t =? chr "=")%Z then
    let '(t, txt, p) := scan p in
    if (t =? chr "=")%Z then Some (EQ, "==", p)
    else if (t =? chr "~")%Z then Some (EREG, "=~", p)
    else Some (ILLEGAL, txt, p)
  else if (t =? chr "/")%Z then scanPattern fuel txt p
  else if (t =? scanner_String)%Z then Some (STRING, txt, p)
  else if (t =? scanner_Ident)%Z then Some (mapIdent txt p)
  else Some (ILLEGAL, txt, p).

(** [lit[1 : len(lit)-1]]: the slice expression panics unless
    [1 <= len(lit)-1]. *)
Definition unquote (lit : string) : go string :=
  if (String.length lit <? 2)%nat then Panic SliceBounds
  else Ret (substring 1 (String.length lit - 2) lit).

(** [for _, v := range mapVal { values = append(values, v.(string)) }] *)
Fixpoint assertStrings (mapVal : list JSONValue) : go (list string) :=
  match mapVal with
  | [] => Ret []
  | JString v :: rest => values ← assertStrings rest; Ret (v :: values)
  | _ :: _ => Panic TypeAssertion
  end.

(** [for _, v := range mapVal { values = append(values, v.(float64)) }] *)
Fixpoint assertNumbers (mapVal : list JSONValue) : go (list float) :=
  match mapVal with
  | [] => Ret []
  | JNumber v :: rest => values ← assertNumbers rest; Ret (v :: values)
  | _ :: _ => Panic TypeAssertion
  end.

(** What a parsing function hands back: the expression and the error it
    returns, and the parser it leaves behind. *)
Definition parsed : Type := go (Expr * option error * Parser).

Section Parsing.

Variable lib : Library.

(** The [ARRAY] case of [parseUnaryExpr]: the error of [json.Unmarshal] is
    only returned along with the slice literal. *)
Definition parseArray (lit : string) : go (Expr * option error) :=
  let '(mapVal, err) := json_Unmarshal lib ("[" +:+ lit +:+ "]") in
  match mapVal with
  | [] => Ret (NilExpr, Some ErrEmptySlice)
  | JString _ :: _ =>
      values ← assertStrings mapVal; Ret (SliceStringLiteral values, err)
  | JNumber _ :: _ =>
      values ← assertNumbers mapVal; Ret (SliceNumberLiteral values, err)
  | t :: _ => Ret (NilExpr, Some (ErrSliceUnknownType t))
  end.

(** The [switch tok] of [parseUnaryExpr]. *)
Definition parseOperand (tok : Token) (lit : string) : go (Expr * option error) :=
  match tok with
  | IDENT => Ret (VarRef lit, None)
  | STRING => v ← unquote lit; Ret (StringLiteral v, None)
  | NUMBER =>
      match strconv_ParseFloat lib lit with
      | (_, Some _) => Ret (NilExpr, Some ErrParseNumber)
      | (v, None) => Ret (NumberLiteral v, None)
      end
  | TRUE | FALSE => Ret (BooleanLiteral (bool_decide (tok = TRUE)), None)
  | ARRAY => parseArray lit
  | _ => Ret (NilExpr, Some (ErrParsing tok lit))
  end.

(** The new root built at the end of one turn of the loop of
    [parseExpr]. *)
Definition rotate (expr : Expr) (op : Token) (rhs : Expr) : Expr :=
  match expr with
  | BinaryExpr lhs_LHS lhs_Op lhs_RHS =>
      if (Precedence lhs_Op <=? Precedence op)%Z
      then BinaryExpr lhs_LHS lhs_Op (BinaryExpr lhs_RHS op rhs)
      else BinaryExpr expr op rhs
  | _ => BinaryExpr expr op rhs
  end.

Fixpoint parseExpr (fuel : nat) (p : Parser) : option parsed :=
  match fuel with
  | O => None
  | S fuel =>
      match parseUnaryExpr fuel p with
      | None => None
      | Some (Panic x) => Some (Panic x)
      | Some (Ret (_, Some err, p)) => Some (Ret (NilExpr, Some err, p))
      | Some (Ret (expr, None, p)) => parseExprLoop fuel expr p
      end
  end
with parseExprLoop (fuel : nat) (expr : Expr) (p : Parser) : option parsed :=
  match fuel with
  | O => None
  | S fuel =>
      match scanWithMapping fuel p with
      | None => None
      | Some (op, tx, p) =>
          if bool_decide (op = ILLEGAL) then Some (Ret (NilExpr, Some (ErrIllegal tx), p))
          else if negb (isOperator op) then Some (Ret (expr, None, unscan p))
          else
            match parseUnaryExpr fuel p with
            | None => None
            | Some (Panic x) => Some (Panic x)
            | Some (Ret (_, Some err, p)) => Some (Ret (NilExpr, Some err, p))
            | Some (Ret (rhs, None, p)) => parseExprLoop fuel (rotate expr op rhs) p
            end
      end
  end
with parseUnaryExpr (fuel : nat) (p : Parser) : option parsed :=
  match fuel with
  | O => None
  | S fuel =>
      match scanWithMapping fuel p with
      | None => None
      | Some (tok, lit, p) =>
          if bool_decide (tok = LPAREN) then
            match parseExpr fuel p with
            | None => None
            | Some (Panic x) => Some (Panic x)
            | Some (Ret (_, Some err, p)) => Some (Ret (NilExpr, Some err, p))
            | Some (Ret (expr, None, p)) =>
                match scanWithMapping fuel p with
                | None => None
                | Some (tok, _, p) =>
                    if negb (bool_decide (tok = RPAREN))
                    then Some (Ret (NilExpr, Some ErrMissingParen, p))
                    else Some (Ret (ParenExpr expr, None, p))
                end
            end
          else
            match parseOperand tok lit with
            | Panic x => Some (Panic x)
            | Ret (expr, err) => Some (Ret (expr, err, p))
            end
      end
  end.

(** [Parse] on the parser [NewParser] makes from the tokens of the input. *)
Definition Parse (fuel : nat) (tokens : list (rune * string))
  : option (go (Expr * option error)) :=
  match parseExpr fuel (NewParser tokens) with
  | None => None
  | Some (Panic x) => Some (Panic x)
  | Some (Ret (expr, err, _)) => Some (Ret (expr, err))
  end.

End Parsing.

(** ** The tokens of a text

    [text/scanner] with the mode [GoTokens] that [Init] sets, on the texts
    made of blanks, identifiers and punctuation.  Texts with a digit
    outside an identifier, a quote, a back quote, a slash, a dot or a
    non-printable byte, which start the scanner's number, string, character
    and comment rules, are outside this model: [scanText] is [None] on
    them. *)

Definition isLetter (c : ascii) : bool :=
  let n := nat_of_ascii c in
  ((65 <=? n) && (n <=? 90) || (97 <=? n) && (n <=? 122) || (n =? 95))%nat.

Definition isDigit (c : ascii) : bool :=
  let n := nat_of_ascii c in ((48 <=? n) && (n <=? 57))%nat.

(** [GoWhitespace]: tab, line feed, carriage return and space. *)
Definition isWhitespace (c : ascii) : bool :=
  let n := nat_of_ascii c in
  ((n =? 9) || (n =? 10) || (n =? 13) || (n =? 32))%nat.

(** The printable characters the scanner returns as themselves. *)
Definition isPunctuation (c : ascii) : bool :=
  let n := nat_of_ascii c in
  ((33 <=? n) && (n <=? 126))%nat
  && negb (isLetter c) && negb (isDigit c)
  && negb ((n =? 34) || (n =? 39) || (n =? 96) || (n =? 47) || (n =? 46))%nat.

(** The identifier being read, if any, ends here. *)
Definition flushIdent (cur : option string) : list (rune * string) :=
  match cur with
  | None => []
  | Some ident => [(scanner_Ident, ident)]
  end.

Fixpoint scanFrom (cur : option string) (input : string)
  : option (list (rune * string)) :=
  match input with
  | EmptyString => Some (flushIdent cur)
  | String c rest =>
      match cur with
      | Some ident =>
          if isLetter c || isDigit c
          then scanFrom (Some (ident +:+ String c EmptyString)) rest
          else if isWhitespace c
          then option_map (app (flushIdent cur)) (scanFrom None rest)
          else if isPunctuation c
          then option_map (app (flushIdent cur ++ [(chr c, String c EmptyString)]))
                          (scanFrom None rest)
          else None
      | None =>
          if isLetter c then scanFrom (Some (String c EmptyString)) rest
          else if isWhitespace c then scanFrom None rest
          else if isPunctuation c
          then option_map (cons (chr c, String c EmptyString)) (scanFrom None rest)
          else None
      end
  end.

Definition scanText (input : string) : option (list (rune * string)) :=
  scanFrom None input.

(** [NewParser(strings.NewReader(text)).Parse()] followed by [Evaluate] on
    the expression when [Parse] returns no error: the way the tests and the
    README run a condition.  [None] when the text is outside [scanText] or
    the fuel runs out. *)
Definition evalText (lib : Library) (fuel : nat) (text : string)
  (args : gmap string HostValue) : option (go (bool * option error)) :=
  match scanText text with
  | None => None
  | Some tokens =>
      match Parse lib fuel tokens with
      | None => None
      | Some (Panic x) => Some (Panic x)
      | Some (Ret (_, Some err)) => Some (Ret (false, Some err))
      | Some (Ret (expr, None)) => Some (Evaluate lib expr args)
      end
  end.

(** ** Variables (parser.go) *)

(** Modelled from the spec: the method [Args] of the node types, whose
    declarations are not part of the sources.  It enumerates the variable
    names a node transitively references, in the order they are met: the
    name of a [VarRef], the names of the inner expression of a [ParenExpr],
    the names of the left then of the right operand of a [BinaryExpr], and
    none for a literal. *)
Fixpoint Args (e : Expr) : list string :=
  match e with
  | VarRef name => [name]
  | ParenExpr inner => Args inner
  | BinaryExpr lhs _ rhs => (Args lhs ++ Args rhs)%list
  | _ => []
  end.

(** One turn of the loop of [removeDuplicates]: [result] and [seen]. *)
Definition removeStep (st : list string * gmap string string) (val : string)
  : list string * gmap string string :=
  let '(result, seen) := st in
  match seen !! val with
  | None => ((result ++ [val])%list, <[val := val]> seen)
  | Some _ => (result, seen)
  end.

Definition removeDuplicates (a : list string) : list string :=
  fst (fold_left removeStep a ([], ∅)).

Definition Variables (expression : Expr) : list string :=
  removeDuplicates (Args expression).

(** ** Vocabulary of the properties *)

(** A library whose every call fails.  The closed examples below run
    conditions that contain no number, no array and no pattern, and never
    call it. *)
Definition noLibrary : Library := {|
  regexp_MatchString := fun _ _ => (false, Some (ErrLibrary "regexp"));
  json_Unmarshal := fun _ => ([], Some (ErrLibrary "json"));
  strconv_ParseFloat := fun _ => (0%float, Some (ErrLibrary "strconv"))
|}.

(** The double quote. *)
Definition quote : string := String (ascii_of_nat 34) EmptyString.

(** A library whose [json.Unmarshal] decodes one text, the list of the
    string [a] and the number [1], and fails on every other. *)
Definition sampleLibrary : Library := {|
  regexp_MatchString := fun _ _ => (false, Some (ErrLibrary "regexp"));
  json_Unmarshal := fun data =>
    if String.eqb data ("[" +:+ quote +:+ "a" +:+ quote +:+ ",1]")
    then ([JString "a"; JNumber 1%float], None)
    else ([], Some (ErrLibrary "json"));
  strconv_ParseFloat := fun _ => (0%float, Some (ErrLibrary "strconv"))
|}.

(** An expression with one sub-expression left out: the path from the root
    to a place in the tree. *)
Inductive Place : Set :=
| Here
| InParen (inner : Place)
| InLHS (lhs : Place) (op : Token) (rhs : Expr)
| InRHS (lhs : Expr) (op : Token) (rhs : Place).

(** The expression with [e] at the place. *)
Fixpoint plug (c : Place) (e : Expr) : Expr :=
  match c with
  | Here => e
  | InParen inner => ParenExpr (plug inner e)
  | InLHS lhs op rhs => BinaryExpr (plug lhs e) op rhs
  | InRHS lhs op rhs => BinaryExpr lhs op (plug rhs e)
  end.

(** The evaluation reaches the place: every left operand that
    [evaluateSubtree] reduces before it goes down to the place returns
    without an error. *)
Fixpoint reaches (lib : Library) (args : gmap string HostValue) (c : Place) : bool :=
  match c with
  | Here => true
  | InParen inner => reaches lib args inner
  | InLHS lhs _ _ => reaches lib args lhs
  | InRHS lhs _ rhs =>
      match evaluateSubtree lib lhs args with
      | Ret (_, None) => reaches lib args rhs
      | _ => false
      end
  end.

(** The three kinds [applyEQ] and [applyNQ] compare. *)
Inductive Comparable : Set := CString | CNumber | CBoolean.

#[global] Instance Comparable_eq_dec : EqDecision Comparable.
Proof. solve_decision. Defined.

Definition comparableKind (e : Expr) : option Comparable :=
  match e with
  | StringLiteral _ => Some CString
  | NumberLiteral _ => Some CNumber
  | BooleanLiteral _ => Some CBoolean
  | _ => None
  end.

(** Both operands are of one of the three kinds, and of the same one. *)
Definition shareKind (l r : Expr) : bool :=
  match comparableKind l, comparableKind r with
  | Some a, Some b => bool_decide (a = b)
  | _, _ => false
  end.

Definition compareError (k : Comparable) : error :=
  match k with
  | CString => ErrCompareString
  | CNumber => ErrCompareNumber
  | CBoolean => ErrCompareBoolean
  end.

(** The kinds of decoded JSON values. *)
Inductive JSONKind : Set := JKString | JKNumber | JKBool | JKNull | JKArray | JKObject.

#[global] Instance JSONKind_eq_dec : EqDecision JSONKind.
Proof. solve_decision. Defined.



(** The names of a list in the order they are first met: a name is kept
    unless it occurs in [before], the part of the list already gone
    through. *)
Fixpoint firstOccurrences (before l : list string) : list string :=
  match l with
  | [] => []
  | x :: rest =>
      if bool_decide (x ∈ before)
      then firstOccurrences (before ++ [x])%list rest
      else x :: firstOccurrences (before ++ [x])%list rest
  end.

(** ** Vocabulary of the further properties *)

(** A literal node: what a reduction ends with. *)
Definition isLiteral (e : Expr) : bool :=
  match e with
  | BooleanLiteral _ | NumberLiteral _ | StringLiteral _
  | SliceStringLiteral _ | SliceNumberLiteral _ => true
  | _ => false
  end.

(** The two binding maps bind the names of the list to the same values. *)
Definition agreeOn (names : list string) (args args' : gmap string HostValue) : Prop :=
  forall name, name ∈ names -> args !! name = args' !! name.

(** The kinds whose case in [evaluateSubtree] asserts one dynamic type. *)
Definition assertedKind (k : Kind) : bool :=
  match k with
  | KInt | KInt32 | KInt64 | KFloat32 | KFloat64 | KString | KBool => true
  | _ => false
  end.

(** The operands and the operators of an expression as they are read from
    left to right; an operand is any node that is not a [BinaryExpr]. *)
Fixpoint infixOf (e : Expr) : list (Token + Expr) :=
  match e with
  | BinaryExpr lhs op rhs => (infixOf lhs ++ inl op :: infixOf rhs)%list
  | _ => [inr e]
  end.

(** No nil node, and an operator token in every [BinaryExpr]. *)
Fixpoint wellFormed (e : Expr) : bool :=
  match e with
  | NilExpr => false
  | ParenExpr inner => wellFormed inner
  | BinaryExpr lhs op rhs => wellFormed lhs && isOperator op && wellFormed rhs
  | _ => true
  end.

(** The tokens of a bracketed segment: an opening bracket, the token of the
    name and a closing bracket. *)
Definition bracket (name : rune * string) : list (rune * string) :=
  [(chr "[", "["); name; (chr "]", "]")].

(** The texts joined by dots after [first]. *)
Definition dotted (first : string) (more : list string) : string :=
  fold_left (fun path name => path +:+ "." +:+ name) more first.


(** The texts of the tokens, one after the other. *)
Definition textOf (body : list (rune * string)) : string :=
  fold_right (fun tok text => snd tok +:+ text) EmptyString body.

(** The four boolean connectives, their tokens, their reserved words and
    what [applyAND], [applyOR], [applyXOR] and [applyNAND] compute. *)
Inductive Connective : Set := ConnAND | ConnOR | ConnXOR | ConnNAND.

Definition connectiveToken (c : Connective) : Token :=
  match c with
  | ConnAND => AND | ConnOR => OR | ConnXOR => XOR | ConnNAND => NAND
  end.

Definition connectiveWord (c : Connective) : string :=
  match c with
  | ConnAND => "AND" | ConnOR => "OR" | ConnXOR => "XOR" | ConnNAND => "NAND"
  end.

Definition connectiveValue (c : Connective) (a b : bool) : bool :=
  match c with
  | ConnAND => a && b
  | ConnOR => a || b
  | ConnXOR => xorb a b
  | ConnNAND => negb (a && b)
  end.

(** The token of the word [true] or [false]. *)
Definition boolToken (b : bool) : rune * string :=
  (scanner_Ident, if b then "true" else "false").

(** The tokens of [c b1 c b2 ... c bn], to follow a first operand. *)
Definition chainTokens (c : Connective) (bs : list bool) : list (rune * string) :=
  flat_map (fun b => [(scanner_Ident, connectiveWord c); boolToken b]) bs.

(** The value of the chain [b0 c b1 c ... c bn] as the parser groups it:
    [b0 c (((b1 c b2) c b3) ... c bn)]. *)
Definition chainValue (c : Connective) (b0 : bool) (bs : list bool) : bool :=
  match bs with
  | [] => b0
  | b1 :: rest => connectiveValue c b0 (fold_left (connectiveValue c) rest b1)
  end.

(** The four comparisons and what [applyGT], [applyGTE], [applyLT] and
    [applyLTE] compute on two numbers. *)
Inductive Comparison : Set := CmpGT | CmpGTE | CmpLT | CmpLTE.

Definition comparisonToken (c : Comparison) : Token :=
  match c with
  | CmpGT => GT | CmpGTE => GTE | CmpLT => LT | CmpLTE => LTE
  end.

Definition comparisonValue (c : Comparison) (a b : float) : bool :=
  match c with
  | CmpGT => PrimFloat.ltb b a
  | CmpGTE => PrimFloat.leb b a
  | CmpLT => PrimFloat.ltb a b
  | CmpLTE => PrimFloat.leb a b
  end.

(** ** The positional evaluator

    The superseded evaluator, whose variables are positions in a list of
    arguments.  Its operator handlers and its [get] functions are, word for
    word, those of the evaluator above for the operators it has. *)

Module Legacy.

(** The errors of the positional evaluator: its two own messages, and the
    errors it shares with the evaluator above. *)
Inductive legacyError : Type :=
| FailedIndex (cause : error)      (* Failed to resolve argument index: %s *)
| NotEnoughArguments (n : nat) (name : string)
                                   (* Not enough arguments provided. ... *)
| Shared (err : error).

(** [strings.Replace(name, "$", "", -1)]: every dollar sign is taken out.
    (The dollar sign is the byte 36.) *)
Fixpoint removeDollars (name : string) : string :=
  match name with
  | EmptyString => EmptyString
  | String c rest =>
      if (nat_of_ascii c =? 36)%nat then removeDollars rest
      else String c (removeDollars rest)
  end.

Definition applyOperator (op : Token) (l r : Expr) : handled :=
  match op with
  | AND => applyAND l r
  | OR => applyOR l r
  | EQ => applyEQ l r
  | NEQ => applyNQ l r
  | GT => applyGT l r
  | GTE => applyGTE l r
  | LT => applyLT l r
  | LTE => applyLTE l r
  | _ => (Some false, Some (ErrUnsupportedOperator op))
  end.

(** The switch on the kind of the argument: no case for slices. *)
Definition resolve (name : string) (v : HostValue) : go (Expr * option error) :=
  kind ← kindOf v;
  match kind with
  | KInt =>
      match v with
      | HInt z => Ret (NumberLiteral (float64_of_int z), None)
      | _ => Panic TypeAssertion
      end
  | KInt32 =>
      match v with
      | HInt32 z => Ret (NumberLiteral (float64_of_int z), None)
      | _ => Panic TypeAssertion
      end
  | KInt64 =>
      match v with
      | HInt64 z => Ret (NumberLiteral (float64_of_int z), None)
      | _ => Panic TypeAssertion
      end
  | KFloat32 =>
      match v with
      | HFloat32 f => Ret (NumberLiteral f, None)
      | _ => Panic TypeAssertion
      end
  | KFloat64 =>
      match v with
      | HFloat64 f => Ret (NumberLiteral f, None)
      | _ => Panic TypeAssertion
      end
  | KString =>
      match v with
      | HString str => Ret (StringLiteral str, None)
      | _ => Panic TypeAssertion
      end
  | KBool =>
      match v with
      | HBool b => Ret (BooleanLiteral b, None)
      | _ => Panic TypeAssertion
      end
  | _ => Ret (falseExpr, Some (ErrUnsupportedArgument name kind))
  end.

(** An error of the shared kind, as an error of this evaluator. *)
Definition shared {A} (r : go (A * option error)) : go (A * option legacyError) :=
  '(a, err) ← r; Ret (a, option_map Shared err).

Section Evaluator.

(** [strconv.Atoi] *)
Variable Atoi : string -> Z * option error.

(** [args[index]] panics when the index is negative: the bounds check of
    the index, recorded as [SliceBounds]. *)
Fixpoint evaluateSubtree (expr : Expr) (args : list HostValue)
  : go (Expr * option legacyError) :=
  match expr with
  | NilExpr => Ret (falseExpr, Some (Shared ErrNilExpression))
  | ParenExpr n => evaluateSubtree n args
  | BinaryExpr lhs op rhs =>
      '(lv, err) ← evaluateSubtree lhs args;
      match err with
      | Some err => Ret (falseExpr, Some err)
      | None =>
          '(rv, err) ← evaluateSubtree rhs args;
          match err with
          | Some err => Ret (falseExpr, Some err)
          | None =>
              let '(result, err) := applyOperator op lv rv in
              Ret (exprOfPointer result, option_map Shared err)
          end
      end
  | VarRef name =>
      match Atoi (removeDollars name) with
      | (_, Some err) => Ret (falseExpr, Some (FailedIndex err))
      | (index, None) =>
          if (Z.of_nat (length args) <=? index)%Z
          then Ret (falseExpr, Some (NotEnoughArguments (length args) name))
          else
            match (if (index <? 0)%Z then None else args !! Z.to_nat index) with
            | None => Panic SliceBounds
            | Some v => shared (resolve name v)
            end
      end
  | _ => Ret (expr, None)
  end.

Definition Evaluate (expr : Expr) (args : list HostValue)
  : go (bool * option legacyError) :=
  match expr with
  | NilExpr => Ret (false, Some (Shared ErrNilExpression))
  | _ =>
      '(result, err) ← evaluateSubtree expr args;
      match err with
      | Some err => Ret (false, Some err)
      | None =>
          match result with
          | BooleanLiteral v => Ret (v, None)
          | _ => Ret (false, Some (Shared (ErrUnexpectedRoot result)))
          end
      end
  end.

End Evaluator.

(** The operators of the positional evaluator, and the tokens that are no
    operator at all: the tokens on which [applyOperator] is the same in
    the two evaluators. *)
Definition sameOperator (op : Token) : bool :=
  match op with
  | XOR | NAND | IN | NOTIN | EREG | NEREG | INTERSECTS | HAS => false
  | _ => true
  end.

(** A value that is neither of the two slice types the evaluator above
    turns into a set. *)
Definition noSlice (v : HostValue) : bool :=
  match v with
  | HSliceIface _ | HSliceString _ => false
  | _ => true
  end.

(** The expression fits the two ways of passing values: every variable
    reference names a position of [args], the binding map binds its name to
    the value at that position, the value is no slice, and every operator
    is one the two evaluators share. *)
Fixpoint compatible (Atoi : string -> Z * option error) (e : Expr)
  (args : list HostValue) (bindings : gmap string HostValue) : Prop :=
  match e with
  | VarRef name =>
      exists (i : nat) (v : HostValue),
        Atoi (removeDollars name) = (Z.of_nat i, None)
        /\ args !! i = Some v
        /\ bindings !! name = Some v
        /\ noSlice v = true
  | ParenExpr inner => compatible Atoi inner args bindings
  | BinaryExpr lhs op rhs =>
      sameOperator op = true
      /\ compatible Atoi lhs args bindings
      /\ compatible Atoi rhs args bindings
  | _ => True
  end.

(** [strconv.Atoi] on the texts made of decimal digits only, which is all
    the examples need: the value when it fits an [int] of 64 bits, an error
    when it does not, and an error on every other text. *)
Fixpoint digitsValue (acc : Z) (str : string) : option Z :=
  match str with
  | EmptyString => Some acc
  | String c rest =>
      let n := nat_of_ascii c in
      if ((48 <=? n) && (n <=? 57))%nat
      then digitsValue (10 * acc + Z.of_nat (n - 48)) rest
      else None
  end.

Definition digitsAtoi (str : string) : Z * option error :=
  match str with
  | EmptyString => (0%Z, Some (ErrLibrary "strconv.Atoi"))
  | _ =>
      match digitsValue 0 str with
      | Some n =>
          if (n <=? 9223372036854775807)%Z then (n, None)
          else (9223372036854775807%Z, Some (ErrLibrary "strconv.Atoi"))
      | None => (0%Z, Some (ErrLibrary "strconv.Atoi"))
      end
  end.

End Legacy.

(** ** Properties of the evaluator *)

Section EvaluatorFacts.

Variable lib : Library.

Implicit Types (e l r : Expr) (args : gmap string HostValue) (c : Place).

Lemma applyBoolean_nil_pointer f l r err :
  applyBoolean f l r = (None, err) -> err <> None.
Proof.
  unfold applyBoolean.
  destruct (getBoolean l) as [a [ea|]]; [intros [= <-]; discriminate|].
  destruct (getBoolean r) as [b [eb|]]; [intros [= <-]; discriminate|].
  discriminate.
Qed.

Lemma applyCompare_nil_pointer f l r err :
  applyCompare f l r = (None, err) -> err <> None.
Proof.
  unfold applyCompare.
  destruct (getNumber l) as [a [ea|]]; [intros [= <-]; discriminate|].
  destruct (getNumber r) as [b [eb|]]; [intros [= <-]; discriminate|].
  discriminate.
Qed.

Lemma applyIN_nil_pointer l r err : applyIN l r = (None, err) -> err <> None.
Proof.
  unfold applyIN. destruct l; simpl; try (intros [= <-]; discriminate).
  - destruct (getSliceNumber r) as [b [eb|]]; [intros [= <-]|]; discriminate.
  - destruct (getSliceString r) as [b [eb|]]; [intros [= <-]|]; discriminate.
Qed.

Lemma applyEREG_nil_pointer l r err :
  applyEREG lib l r = (None, err) -> err <> None.
Proof.
  unfold applyEREG.
  destruct (getString l) as [a [ea|]]; [intros [= <-]; discriminate|].
  destruct (getString r) as [b [eb|]]; [intros [= <-]; discriminate|].
  destruct (regexp_MatchString lib b a). discriminate.
Qed.

(** A handler that returns a nil pointer returns an error with it. *)
Lemma applyOperator_nil_pointer op l r err :
  applyOperator lib op l r = Ret (None, err) -> err <> None.
Proof.
  destruct op; simpl; try discriminate;
    try (intros [= H]; revert H;
         first [ apply applyBoolean_nil_pointer | apply applyCompare_nil_pointer
               | apply applyIN_nil_pointer | apply applyEREG_nil_pointer ]).
  - intros [= H]. unfold applyEQ in H.
    destruct (getString l) as [? [?|]], (getString r) as [? [?|]],
      (getNumber l) as [? [?|]], (getNumber r) as [? [?|]],
      (getBoolean l) as [? [?|]], (getBoolean r) as [? [?|]]; discriminate.
  - intros [= H]. unfold applyNQ in H.
    destruct (getString l) as [? [?|]], (getString r) as [? [?|]],
      (getNumber l) as [? [?|]], (getNumber r) as [? [?|]],
      (getBoolean l) as [? [?|]], (getBoolean r) as [? [?|]]; discriminate.
  - intros [= H]. unfold applyLTE in H.
    destruct (getNumber l) as [? [?|]], (getNumber r) as [? [?|]]; discriminate.
  - unfold applyNOTIN. destruct (applyIN l r) as [[v|] e']; discriminate.
  - unfold applyNEREG. destruct (applyEREG lib l r) as [[v|] e']; discriminate.
  - intros [= H]. unfold applyINTERSECTS in H.
    destruct (getSliceString l) as [? [?|]], (getSliceString r) as [? [?|]];
      discriminate.
  - intros [= H]. unfold applyHAS in H.
    destruct (getSliceString l) as [? [?|]], (getString r) as [? [?|]];
      discriminate.
Qed.

(** [Evaluate] never returns [true] along with an error. *)
Lemma Evaluate_error_false e args b err :
  Evaluate lib e args = Ret (b, Some err) -> b = false.
Proof.
  unfold Evaluate. destruct e; try (intros [= <- _]; reflexivity).
  all: destruct (evaluateSubtree lib _ args) as [[result [err'|]]|x]; simpl;
    try discriminate; try (intros [= <- _]; reflexivity).
  all: destruct result; intros [= <- ?]; try reflexivity; discriminate.
Qed.

(** An error met at a place the evaluation reaches is what
    [evaluateSubtree] returns for the whole expression. *)
Lemma evaluateSubtree_plug_error c e args err :
  reaches lib args c = true ->
  evaluateSubtree lib e args = Ret (falseExpr, Some err) ->
  evaluateSubtree lib (plug c e) args = Ret (falseExpr, Some err).
Proof.
  intros Hc He. induction c as [|inner IH|lhs IH op rhs|lhs op rhs IH]; simpl in *.
  - exact He.
  - auto.
  - rewrite (IH Hc). reflexivity.
  - destruct (evaluateSubtree lib lhs args) as [[lv [el|]]|x]; try discriminate.
    simpl. rewrite (IH Hc). reflexivity.
Qed.

(** What [Evaluate] makes of an error of [evaluateSubtree]. *)
Lemma Evaluate_of_error e args err :
  e <> NilExpr ->
  evaluateSubtree lib e args = Ret (falseExpr, Some err) ->
  Evaluate lib e args = Ret (false, Some err).
Proof.
  intros Hnil He. unfold Evaluate. rewrite He. destruct e; try reflexivity.
  contradiction.
Qed.

Lemma plug_not_nil c e : e <> NilExpr -> plug c e <> NilExpr.
Proof. destruct c; simpl; try discriminate. trivial. Qed.

End EvaluatorFacts.

Section EvaluateClaims.

Variable lib : Library.

Implicit Types (e : Expr) (args : gmap string HostValue) (c : Place).

(** C1 (code at the failing inputs).  [Evaluate] does not return on a
    [NOT IN] or a [!~] node whose operands have the wrong kinds: [applyIN]
    and [applyEREG] return a nil pointer with their error, and [applyNOTIN]
    and [applyNEREG] negate the field of that pointer before they look at
    the error.  On [true NOT IN false] and [true !~ false] the outcome is a
    nil-pointer panic, for every binding map; the same holds for the texts
    run through [Parse]. *)
Theorem Evaluate_NOTIN_NEREG_wrong_kinds_panic args :
  Evaluate lib (BinaryExpr (BooleanLiteral true) NOTIN (BooleanLiteral false)) args
    = Panic NilDereference
  /\ Evaluate lib (BinaryExpr (BooleanLiteral true) NEREG (BooleanLiteral false)) args
    = Panic NilDereference
  /\ (forall k, evalText lib (10 + k) "true NOT IN false" args
                = Some (Panic NilDereference))
  /\ (forall k, evalText lib (10 + k) "true !~ false" args
                = Some (Panic NilDereference)).
Proof. repeat split; reflexivity. Qed.

(** The operands of [NOT IN] are of the right kinds: a string and a string
    set, or a number and a number set. *)
Lemma applyNOTIN_wrong_kinds (l r : Expr) :
  match l, r with
  | StringLiteral _, SliceStringLiteral _ => True
  | NumberLiteral _, SliceNumberLiteral _ => True
  | _, _ => applyOperator lib NOTIN l r = Panic NilDereference
  end.
Proof. destruct l, r; simpl; trivial. Qed.

(** The operands of [!~] are of the right kinds: two strings. *)
Lemma applyNEREG_wrong_kinds (l r : Expr) :
  match l, r with
  | StringLiteral _, StringLiteral _ => True
  | _, _ => applyOperator lib NEREG l r = Panic NilDereference
  end.
Proof. destruct l, r; simpl; trivial. Qed.

(** C7.  When the evaluation reaches a variable reference whose name is
    absent from the binding map, [Evaluate] returns [false] together with
    the resolution error [argument: name not found]: it neither panics nor
    returns a nil error. *)
Theorem Evaluate_missing_variable c name args :
  args !! name = None ->
  reaches lib args c = true ->
  Evaluate lib (plug c (VarRef name)) args
    = Ret (false, Some (ErrArgumentNotFound name)).
Proof.
  intros Hname Hc. apply Evaluate_of_error.
  - apply plug_not_nil. discriminate.
  - apply evaluateSubtree_plug_error; [exact Hc|].
    simpl. rewrite Hname. reflexivity.
Qed.

(** C8.  Parenthesization is transparent to evaluation: for every
    expression and every binding map, [Evaluate] on the [ParenExpr] that
    wraps the expression has the outcome of [Evaluate] on the expression
    itself, the same boolean and the same error (or the same panic). *)
Theorem Evaluate_ParenExpr e args :
  Evaluate lib (ParenExpr e) args = Evaluate lib e args.
Proof. destruct e; reflexivity. Qed.

(** C10.  [Evaluate] on the nil expression returns [false] and the error
    [Provided expression is nil], for every binding map; so does [Evaluate]
    on an expression in which the evaluation reaches a nil sub-expression
    ([Here] is the nil expression itself). *)
Theorem Evaluate_nil_expression c args :
  reaches lib args c = true ->
  Evaluate lib (plug c NilExpr) args = Ret (false, Some ErrNilExpression).
Proof.
  intros Hc. destruct c as [|inner|lhs op rhs|lhs op rhs].
  - reflexivity.
  - apply Evaluate_of_error; [discriminate|].
    apply (evaluateSubtree_plug_error lib (InParen inner)); [exact Hc|reflexivity].
  - apply Evaluate_of_error; [discriminate|].
    apply (evaluateSubtree_plug_error lib (InLHS lhs op rhs)); [exact Hc|reflexivity].
  - apply Evaluate_of_error; [discriminate|].
    apply (evaluateSubtree_plug_error lib (InRHS lhs op rhs)); [exact Hc|reflexivity].
Qed.

End EvaluateClaims.

(** [[var0] AND [missing]] with [var0] bound: the evaluation reduces
    [[var0]] and then reaches [[missing]]. *)
Lemma Evaluate_missing_variable_witness :
  Evaluate noLibrary
    (BinaryExpr (VarRef "var0") AND (VarRef "missing")) {[ "var0" := HBool true ]}
  = Ret (false, Some (ErrArgumentNotFound "missing")).
Proof.
  apply (Evaluate_missing_variable noLibrary
           (InRHS (VarRef "var0") AND Here) "missing" {[ "var0" := HBool true ]}).
  - vm_compute. reflexivity.
  - vm_compute. reflexivity.
Defined.

(** [true AND (nil)]: a nil expression inside parentheses, as the right
    operand. *)
Lemma Evaluate_nil_expression_witness :
  Evaluate noLibrary
    (BinaryExpr (BooleanLiteral true) AND (ParenExpr NilExpr)) ∅
  = Ret (false, Some ErrNilExpression).
Proof.
  apply (Evaluate_nil_expression noLibrary
           (InRHS (BooleanLiteral true) AND (InParen Here)) ∅).
  vm_compute. reflexivity.
Defined.

(** ** Properties of the operators *)

Lemma rangeFound_from {A} (eq : A -> A -> bool) a (b : list A) (found : bool) :
  fold_left (fun found e => if eq a e then true else found) b found
  = found || existsb (eq a) b.
Proof.
  revert found. induction b as [|e b IH]; intros found; simpl.
  - rewrite orb_false_r. reflexivity.
  - rewrite IH. destruct (eq a e), found; reflexivity.
Qed.

Lemma rangeFound_existsb {A} (eq : A -> A -> bool) a (b : list A) :
  rangeFound eq a b = existsb (eq a) b.
Proof. unfold rangeFound. rewrite rangeFound_from. reflexivity. Qed.

Lemma rangeFound_string a (b : list string) :
  rangeFound String.eqb a b = true <-> a ∈ b.
Proof.
  rewrite rangeFound_existsb, existsb_exists. split.
  - intros (e & He & Heq). apply String.eqb_eq in Heq. subst e.
    apply list_elem_of_In. exact He.
  - intros Ha. exists a. split; [apply list_elem_of_In; exact Ha|apply String.eqb_refl].
Qed.

Lemma rangeFound_number a (b : list float) :
  rangeFound PrimFloat.eqb a b = true <-> exists e, e ∈ b /\ PrimFloat.eqb a e = true.
Proof.
  rewrite rangeFound_existsb, existsb_exists. split.
  - intros (e & He & Heq). exists e. split; [apply list_elem_of_In; exact He|exact Heq].
  - intros (e & He & Heq). exists e. split; [apply list_elem_of_In; exact He|exact Heq].
Qed.

(** C2 (as amended).  On operands that do not share one of the kinds
    string, number, boolean: when the left operand is of one of the three
    kinds, [applyEQ] and [applyNQ] both return the error [Cannot compare
    ... with non-...] of that kind; when the left operand is of none of
    them, [applyEQ] returns [false] and no error, and [applyNQ] returns no
    error. *)
Theorem applyEQ_applyNQ_kind_mismatch (l r : Expr) :
  shareKind l r = false ->
  match comparableKind l with
  | Some k =>
      applyEQ l r = (Some false, Some (compareError k))
      /\ applyNQ l r = (Some false, Some (compareError k))
  | None =>
      applyEQ l r = (Some false, None) /\ snd (applyNQ l r) = None
  end.
Proof.
  unfold shareKind.
  destruct l, r; simpl; intros H; try discriminate H; split; reflexivity.
Qed.

(** [[v] == true] with [v] bound to the string [true], reduced: a string
    on the left of a boolean. *)
Lemma applyEQ_applyNQ_kind_mismatch_witness :
  applyEQ (StringLiteral "true") (BooleanLiteral true)
    = (Some false, Some ErrCompareString)
  /\ applyNQ (StringLiteral "true") (BooleanLiteral true)
    = (Some false, Some ErrCompareString).
Proof.
  apply (applyEQ_applyNQ_kind_mismatch (StringLiteral "true") (BooleanLiteral true)).
  reflexivity.
Defined.

(** C2 (counterexample).  A string operand and a boolean operand share no
    kind, and [applyEQ] on them does not return [false] with no error: it
    returns the error [Cannot compare string with non-string]; [applyNQ]
    does not return [true] with no error either. *)
Lemma applyEQ_string_boolean_is_error :
  shareKind (StringLiteral "true") (BooleanLiteral true) = false
  /\ applyEQ (StringLiteral "true") (BooleanLiteral true) <> (Some false, None)
  /\ applyNQ (StringLiteral "true") (BooleanLiteral true) <> (Some true, None).
Proof. repeat split; discriminate. Qed.

(** Where [applyNQ] falls through all three kinds it returns [falseExpr],
    as [applyEQ] does. *)
Lemma applyNQ_fall_through (l r : Expr) :
  comparableKind l = None -> applyNQ l r = (Some false, None).
Proof. destruct l; simpl; try discriminate; reflexivity. Qed.

Section Membership.

Variable lib : Library.

(** C5.  With a string literal on the left and a string set on the right,
    and with a number literal on the left and a number set on the right,
    [IN] returns no error and is true exactly when the left value is equal
    to an element of the set (for numbers, equal by the [==] of [float64]),
    and [NOT IN] returns no error and the negation of the result of [IN]. *)
Theorem IN_NOTIN_membership :
  (forall (a : string) (b : list string), exists v : bool,
      applyOperator lib IN (StringLiteral a) (SliceStringLiteral b) = Ret (Some v, None)
      /\ (v = true <-> a ∈ b)
      /\ applyOperator lib NOTIN (StringLiteral a) (SliceStringLiteral b)
         = Ret (Some (negb v), None))
  /\ (forall (a : float) (b : list float), exists v : bool,
      applyOperator lib IN (NumberLiteral a) (SliceNumberLiteral b) = Ret (Some v, None)
      /\ (v = true <-> exists e, e ∈ b /\ PrimFloat.eqb a e = true)
      /\ applyOperator lib NOTIN (NumberLiteral a) (SliceNumberLiteral b)
         = Ret (Some (negb v), None)).
Proof.
  split; intros a b.
  - exists (rangeFound String.eqb a b). split; [reflexivity|].
    split; [apply rangeFound_string|reflexivity].
  - exists (rangeFound PrimFloat.eqb a b). split; [reflexivity|].
    split; [apply rangeFound_number|reflexivity].
Qed.

End Membership.

(** ** Fuel *)

(** More fuel does not change a result. *)
Lemma scanArray_fuel fuel fuel' txt p r :
  (fuel <= fuel')%nat -> scanArray fuel txt p = Some r -> scanArray fuel' txt p = Some r.
Proof.
  revert fuel' txt p. induction fuel as [|fuel IH]; intros fuel' txt p Hle; [discriminate|].
  destruct fuel' as [|fuel']; [lia|]. simpl.
  destruct (scan p) as [[t ttTmp] p1]. destruct (t =? chr "]")%Z; [trivial|].
  apply IH. lia.
Qed.

Lemma scanArgLoop_fuel fuel fuel' txt sep p r :
  (fuel <= fuel')%nat ->
  scanArgLoop fuel txt sep p = Some r -> scanArgLoop fuel' txt sep p = Some r.
Proof.
  revert fuel' txt sep p.
  induction fuel as [|fuel IH]; intros fuel' txt sep p Hle; [discriminate|].
  destruct fuel' as [|fuel']; [lia|]. simpl.
  destruct (scan p) as [[t ttTmp] p1]. destruct (t =? chr "@")%Z; [apply IH; lia|].
  destruct (scan p1) as [[t2 x2] p2]. destruct (t2 =? chr "]")%Z; [|trivial].
  destruct (scan p2) as [[ti x3] p3]. destruct (ti =? chr "[")%Z; [apply IH; lia|trivial].
Qed.

Lemma scanPattern_fuel fuel fuel' txt p r :
  (fuel <= fuel')%nat -> scanPattern fuel txt p = Some r -> scanPattern fuel' txt p = Some r.
Proof.
  revert fuel' txt p. induction fuel as [|fuel IH]; intros fuel' txt p Hle; [discriminate|].
  destruct fuel' as [|fuel']; [lia|]. simpl.
  destruct (scan p) as [[t ttTmp] p1]. destruct (t =? chr "/")%Z; [trivial|].
  apply IH. lia.
Qed.

Lemma scanWithMapping_fuel fuel fuel' p r :
  (fuel <= fuel')%nat ->
  scanWithMapping fuel p = Some r -> scanWithMapping fuel' p = Some r.
Proof.
  intros Hle. unfold scanWithMapping.
  destruct (scan p) as [[t txt] p1].
  repeat match goal with
         | |- context [if ?b then _ else _] => destruct b; [trivial|]
         end; trivial.
  all: try (apply scanPattern_fuel; exact Hle).
  unfold scanArg.
  destruct (scanArgLoop fuel EmptyString EmptyString p1) as [[[[t1 txt1] err1] p2]|] eqn:Harg;
    [|discriminate].
  rewrite (scanArgLoop_fuel _ _ _ _ _ _ Hle Harg).
  destruct err1; [|trivial].
  destruct (scanArray fuel txt1 (unscan p2)) as [r1|] eqn:Harr; [|discriminate].
  rewrite (scanArray_fuel _ _ _ _ _ Hle Harr). trivial.
Qed.

Section ParserFuel.

Variable lib : Library.

Lemma parse_fuel fuel :
  (forall fuel' p r, (fuel <= fuel')%nat ->
     parseExpr lib fuel p = Some r -> parseExpr lib fuel' p = Some r)
  /\ (forall fuel' expr p r, (fuel <= fuel')%nat ->
     parseExprLoop lib fuel expr p = Some r -> parseExprLoop lib fuel' expr p = Some r)
  /\ (forall fuel' p r, (fuel <= fuel')%nat ->
     parseUnaryExpr lib fuel p = Some r -> parseUnaryExpr lib fuel' p = Some r).
Proof.
  induction fuel as [|fuel (IHe & IHl & IHu)];
    [repeat split; intros; discriminate|].
  split; [|split].
  - intros [|fuel'] p r Hle; [lia|]. simpl.
    destruct (parseUnaryExpr lib fuel p) as [r1|] eqn:Hu; [|discriminate].
    rewrite (IHu fuel' p r1 ltac:(lia) Hu).
    destruct r1 as [[[expr [err|]] p1]|x]; trivial.
    apply IHl. lia.
  - intros [|fuel'] expr p r Hle; [lia|]. simpl.
    destruct (scanWithMapping fuel p) as [[[op tx] p1]|] eqn:Hs; [|discriminate].
    rewrite (scanWithMapping_fuel fuel fuel' p _ ltac:(lia) Hs).
    destruct (bool_decide (op = ILLEGAL)); [trivial|].
    destruct (negb (isOperator op)); [trivial|].
    destruct (parseUnaryExpr lib fuel p1) as [r1|] eqn:Hu; [|discriminate].
    rewrite (IHu fuel' p1 r1 ltac:(lia) Hu).
    destruct r1 as [[[rhs [err|]] p2]|x]; trivial.
    apply IHl. lia.
  - intros [|fuel'] p r Hle; [lia|]. simpl.
    destruct (scanWithMapping fuel p) as [[[tok lit] p1]|] eqn:Hs; [|discriminate].
    rewrite (scanWithMapping_fuel fuel fuel' p _ ltac:(lia) Hs).
    destruct (bool_decide (tok = LPAREN)); [|trivial].
    destruct (parseExpr lib fuel p1) as [r1|] eqn:He; [|discriminate].
    rewrite (IHe fuel' p1 r1 ltac:(lia) He).
    destruct r1 as [[[expr [err|]] p2]|x]; trivial.
    destruct (scanWithMapping fuel p2) as [[[tok2 lit2] p3]|] eqn:Hs2; [|discriminate].
    rewrite (scanWithMapping_fuel fuel fuel' p2 _ ltac:(lia) Hs2). trivial.
Qed.

(** The result of [Parse] does not depend on the fuel, once there is
    enough of it. *)
Lemma Parse_fuel fuel fuel' tokens r :
  (fuel <= fuel')%nat ->
  Parse lib fuel tokens = Some r -> Parse lib fuel' tokens = Some r.
Proof.
  intros Hle. unfold Parse.
  destruct (parseExpr lib fuel (NewParser tokens)) as [r1|] eqn:He; [|discriminate].
  rewrite (proj1 (parse_fuel fuel) fuel' _ r1 Hle He). trivial.
Qed.

Lemma evalText_fuel fuel fuel' text args r :
  (fuel <= fuel')%nat ->
  evalText lib fuel text args = Some r -> evalText lib fuel' text args = Some r.
Proof.
  intros Hle. unfold evalText. destruct (scanText text) as [tokens|]; [|discriminate].
  destruct (Parse lib fuel tokens) as [r1|] eqn:Hp; [|discriminate].
  rewrite (Parse_fuel fuel fuel' tokens r1 Hle Hp). trivial.
Qed.

End ParserFuel.

(** ** Properties of the parser *)

Section ParserClaims.

Variable lib : Library.

(** C3 (as amended).  [Parse] returns what [parseExpr] returns and does not
    look for the end of the input.  Whatever expression the loop of
    [parseExpr] has built, when the next token is not an operator the loop
    ends there: on an [ILLEGAL] token with the error [ILLEGAL text], on any
    other token (a literal, an identifier, a parenthesis, the end of the
    input) by pushing the token back and returning the expression with no
    error. *)
Theorem parseExprLoop_next_not_operator fuel expr p op tx p' :
  scanWithMapping fuel p = Some (op, tx, p') ->
  isOperator op = false ->
  parseExprLoop lib (S fuel) expr p
  = Some (Ret (if bool_decide (op = ILLEGAL)
               then (NilExpr, Some (ErrIllegal tx), p')
               else (expr, None, unscan p'))).
Proof.
  intros Hscan Hop. simpl. rewrite Hscan.
  destruct (bool_decide (op = ILLEGAL)); [reflexivity|].
  rewrite Hop. reflexivity.
Qed.

(** C4 (code at the failing input).  The loop of [parseExpr] compares the
    precedence of a new operator with that of the root only, so with three
    levels in a row the operand of the innermost operator is taken by the
    one above it: [false OR false AND false == false] is parsed as
    [false OR ((false AND false) == false)] and evaluates to [true], while
    the text parenthesized by precedence,
    [false OR (false AND (false == false))], evaluates to [false]. *)
Theorem parseExpr_three_precedence_levels args :
  (forall k,
     option_map (Parse lib (10 + k)) (scanText "false OR false AND false == false")
     = Some (Some (Ret
         (BinaryExpr (BooleanLiteral false) OR
            (BinaryExpr (BinaryExpr (BooleanLiteral false) AND (BooleanLiteral false))
               EQ (BooleanLiteral false)), None))))
  /\ (forall k, evalText lib (10 + k) "false OR false AND false == false" args
                = Some (Ret (true, None)))
  /\ (forall k, evalText lib (10 + k) "false OR (false AND (false == false))" args
                = Some (Ret (false, None))).
Proof. repeat split; reflexivity. Qed.

(** The levels of the operators. *)
Lemma Precedence_levels :
  Precedence OR = 1%Z
  /\ Forall (fun op => Precedence op = 2%Z) [AND; XOR; NAND]
  /\ Forall (fun op => Precedence op = 3%Z)
       [EQ; NEQ; LT; LTE; GT; GTE; IN; NOTIN; EREG; NEREG; INTERSECTS; HAS].
Proof. repeat split; repeat constructor. Qed.

(** With two levels the rotation gives the tree of the precedence: the
    three conditions of the precedence example evaluate to [false], and the
    first is parsed as the second without its parentheses. *)
Lemma parseExpr_two_precedence_levels args :
  (forall k,
     option_map (Parse lib (10 + k)) (scanText "false OR true AND false")
     = Some (Some (Ret
         (BinaryExpr (BooleanLiteral false) OR
            (BinaryExpr (BooleanLiteral true) AND (BooleanLiteral false)), None))))
  /\ (forall k, evalText lib (10 + k) "false OR true AND false" args
                = Some (Ret (false, None)))
  /\ (forall k, evalText lib (10 + k) "false OR (true AND false)" args
                = Some (Ret (false, None)))
  /\ (forall k, evalText lib (10 + k) "(false OR true) AND false" args
                = Some (Ret (false, None))).
Proof. repeat split; reflexivity. Qed.





End ParserClaims.


(** The tokens of the text made of an opening bracket, the quoted string
    [a], a comma, [1] and a closing bracket: the type assertion of
    [parseUnaryExpr] panics in [Parse]. *)
Lemma Parse_mixed_array_panics :
  Parse sampleLibrary 10
    [(chr "[", "["); (scanner_String, quote +:+ "a" +:+ quote); (chr ",", ",");
     (scanner_Int, "1"); (chr "]", "]")]
  = Some (Panic TypeAssertion).
Proof. vm_compute. reflexivity. Qed.

(** [true] with [false] behind it: the loop is at the token [false]. *)
Lemma parseExprLoop_next_not_operator_witness :
  parseExprLoop noLibrary 2 (BooleanLiteral true)
    (mkParser [(scanner_Ident, "false")] scanner_Ident "true" 0)
  = Some (Ret (BooleanLiteral true, None,
               mkParser [] scanner_Ident "false" 1)).
Proof.
  apply (parseExprLoop_next_not_operator noLibrary 1 (BooleanLiteral true)
           (mkParser [(scanner_Ident, "false")] scanner_Ident "true" 0)
           FALSE "false" (mkParser [] scanner_Ident "false" 0)).
  - vm_compute. reflexivity.
  - vm_compute. reflexivity.
Defined.

(** C3 (counterexample).  The text [true false] is not one complete
    expression, and [Parse] returns the expression of [true] with no
    error; so it does on [true )]. *)
Lemma Parse_trailing_literal :
  scanText "true false" = Some [(scanner_Ident, "true"); (scanner_Ident, "false")]
  /\ Parse noLibrary 3 [(scanner_Ident, "true"); (scanner_Ident, "false")]
     = Some (Ret (BooleanLiteral true, None))
  /\ option_map (Parse noLibrary 3) (scanText "true )")
     = Some (Some (Ret (BooleanLiteral true, None))).
Proof. repeat split; reflexivity. Qed.

(** ** Properties of [Variables] *)

Lemma firstOccurrences_elem_of (before l : list string) (x : string) :
  x ∈ firstOccurrences before l <-> x ∈ l /\ x ∉ before.
Proof.
  revert before. induction l as [|y rest IH]; intros before; simpl.
  - set_solver.
  - destruct (bool_decide_reflect (y ∈ before)) as [Hy|Hy].
    + rewrite IH. set_solver.
    + rewrite elem_of_cons, IH.
      destruct (decide (x = y)) as [->|Hne]; set_solver.
Qed.

Lemma firstOccurrences_NoDup (before l : list string) :
  NoDup (firstOccurrences before l).
Proof.
  revert before. induction l as [|y rest IH]; intros before; simpl.
  - constructor.
  - destruct (bool_decide (y ∈ before)); [apply IH|].
    constructor; [|apply IH].
    rewrite firstOccurrences_elem_of. set_solver.
Qed.

(** The loop of [removeDuplicates], from any turn on: [seen] holds the
    names gone through, and the loop appends to [result] the names first
    met in the rest. *)
Lemma removeStep_fold (l before result : list string) (seen : gmap string string) :
  (forall x, is_Some (seen !! x) <-> x ∈ before) ->
  fst (fold_left removeStep l (result, seen))
  = (result ++ firstOccurrences before l)%list.
Proof.
  revert before result seen.
  induction l as [|y rest IH]; intros before result seen Hseen; simpl.
  - rewrite app_nil_r. reflexivity.
  - destruct (seen !! y) as [v|] eqn:Hy.
    + assert (Hin : y ∈ before) by (apply Hseen; eauto).
      rewrite bool_decide_eq_true_2 by exact Hin.
      apply IH. intros x. rewrite Hseen. set_solver.
    + assert (Hout : y ∉ before).
      { intros Hin. apply Hseen in Hin. rewrite Hy in Hin. destruct Hin; discriminate. }
      rewrite bool_decide_eq_false_2 by exact Hout.
      rewrite (IH (before ++ [y])%list).
      * rewrite <- app_assoc. reflexivity.
      * intros x. rewrite lookup_insert_is_Some, Hseen.
        destruct (decide (y = x)) as [->|Hne]; set_solver.
Qed.

Lemma removeDuplicates_firstOccurrences (a : list string) :
  removeDuplicates a = firstOccurrences [] a.
Proof.
  unfold removeDuplicates. rewrite (removeStep_fold a [] [] ∅); [reflexivity|].
  intros x. rewrite lookup_empty. split.
  - intros [v Hv]. discriminate.
  - intros H. inversion H.
Qed.


(** [[a] AND ([b] OR ([a]))] references [a], [b] and [a] again. *)
Lemma Variables_example :
  Variables (BinaryExpr (VarRef "a") AND
               (BinaryExpr (VarRef "b") OR (ParenExpr (VarRef "a"))))
  = ["a"; "b"].
Proof. vm_compute. reflexivity. Qed.

(** ** Further properties of the evaluator *)

Section EvaluatorMore.

Variable lib : Library.

Implicit Types (e l r : Expr) (args : gmap string HostValue) (c : Place).

Lemma resolve_literal name v result :
  resolve name v = Ret (result, None) -> isLiteral result = true.
Proof.
  unfold resolve. destruct v as [|z|z|z|f|f|str|b|slice|strs|k]; simpl;
    try discriminate; try (intros [= <-]; reflexivity).
  destruct k; simpl; discriminate.
Qed.

(** X1.  [Evaluate] ends in one of three ways: it panics, it returns a
    boolean and no error, or it returns [false] and an error.  It never
    returns [true] along with an error. *)
Theorem Evaluate_outcomes e args :
  (exists x, Evaluate lib e args = Panic x)
  \/ (exists b, Evaluate lib e args = Ret (b, None))
  \/ (exists err, Evaluate lib e args = Ret (false, Some err)).
Proof.
  destruct (Evaluate lib e args) as [[b [err|]]|x] eqn:He.
  - right. right. exists err. rewrite (Evaluate_error_false lib e args b err He).
    reflexivity.
  - right. left. exists b. reflexivity.
  - left. exists x. reflexivity.
Qed.

(** X2.  A reduction that returns no error returns a literal node. *)
Theorem evaluateSubtree_literal e args v :
  evaluateSubtree lib e args = Ret (v, None) -> isLiteral v = true.
Proof.
  revert v. induction e as [| | | | | |name|inner IH|lhs IHl op rhs IHr]; intros v; simpl;
    try discriminate; try (intros [= <-]; reflexivity).
  - destruct (args !! name) as [hv|]; [apply resolve_literal|discriminate].
  - apply IH.
  - destruct (evaluateSubtree lib lhs args) as [[lv [el|]]|x]; simpl; try discriminate.
    destruct (evaluateSubtree lib rhs args) as [[rv [er|]]|x]; simpl; try discriminate.
    destruct (applyOperator lib op lv rv) as [[[b|] err]|x] eqn:Hop; simpl;
      try discriminate.
    + intros [= <- _]. reflexivity.
    + intros [= _ ->]. apply applyOperator_nil_pointer in Hop. contradiction.
Qed.

(** X3.  A binary node that reduces with no error reduces to a boolean,
    which is what [Evaluate] returns: with an operator at the root,
    [Evaluate] never reports an unexpected result of the root. *)
Theorem Evaluate_BinaryExpr_boolean l op r args v :
  evaluateSubtree lib (BinaryExpr l op r) args = Ret (v, None) ->
  exists b, v = BooleanLiteral b
            /\ Evaluate lib (BinaryExpr l op r) args = Ret (b, None).
Proof.
  intros H. unfold Evaluate. rewrite H. simpl in H.
  destruct (evaluateSubtree lib l args) as [[lv [el|]]|x]; simpl in H; try discriminate.
  destruct (evaluateSubtree lib r args) as [[rv [er|]]|x]; simpl in H; try discriminate.
  destruct (applyOperator lib op lv rv) as [[[b|] err]|x] eqn:Hop; simpl in H;
    try discriminate.
  - injection H as <- ->. exists b. split; reflexivity.
  - injection H as _ ->. apply applyOperator_nil_pointer in Hop. contradiction.
Qed.

(** X4.  The operands of a binary node are both reduced, the left one
    first, whatever the operator: an error of the left operand is the
    error of the node, and with a left operand that reduces, an error of
    the right operand is the error of the node.  No operator
    short-circuits. *)
Theorem Evaluate_operands_left_to_right l op r args lv rv err :
  (evaluateSubtree lib l args = Ret (lv, Some err) ->
   Evaluate lib (BinaryExpr l op r) args = Ret (false, Some err))
  /\ (evaluateSubtree lib l args = Ret (lv, None) ->
      evaluateSubtree lib r args = Ret (rv, Some err) ->
      Evaluate lib (BinaryExpr l op r) args = Ret (false, Some err)).
Proof.
  split.
  - intros Hl. unfold Evaluate. simpl. rewrite Hl. reflexivity.
  - intros Hl Hr. unfold Evaluate. simpl. rewrite Hl. simpl. rewrite Hr. reflexivity.
Qed.

Lemma evaluateSubtree_agreeOn e args args' :
  agreeOn (Args e) args args' ->
  evaluateSubtree lib e args = evaluateSubtree lib e args'.
Proof.
  induction e as [| | | | | |name|inner IH|lhs IHl op rhs IHr]; intros H; simpl;
    try reflexivity.
  - rewrite (H name); [reflexivity|]. simpl. set_solver.
  - apply IH. exact H.
  - rewrite IHl, IHr; [reflexivity| |]; intros name Hn; apply H; simpl; set_solver.
Qed.

(** X5.  [Evaluate] looks up only the names of the variable references of
    the expression: on two binding maps that bind the names [Variables]
    lists to the same values it has the same outcome. *)
Theorem Evaluate_agreeOn_Variables e args args' :
  agreeOn (Variables e) args args' ->
  Evaluate lib e args = Evaluate lib e args'.
Proof.
  intros H. unfold Evaluate.
  rewrite (evaluateSubtree_agreeOn e args args'); [reflexivity|].
  intros name Hn. apply H. unfold Variables.
  rewrite removeDuplicates_firstOccurrences, firstOccurrences_elem_of. set_solver.
Qed.

End EvaluatorMore.

(** [[var0] AND true] with [var0] bound to [true]. *)
Lemma evaluateSubtree_literal_witness : isLiteral (BooleanLiteral true) = true.
Proof.
  apply (evaluateSubtree_literal noLibrary
           (BinaryExpr (VarRef "var0") AND (BooleanLiteral true))
           {[ "var0" := HBool true ]} (BooleanLiteral true)).
  vm_compute. reflexivity.
Defined.

Lemma Evaluate_BinaryExpr_boolean_witness :
  exists b, BooleanLiteral false = BooleanLiteral b
            /\ Evaluate noLibrary
                 (BinaryExpr (StringLiteral "ON") EQ (StringLiteral "OFF")) ∅
               = Ret (b, None).
Proof.
  apply (Evaluate_BinaryExpr_boolean noLibrary (StringLiteral "ON") EQ
           (StringLiteral "OFF") ∅ (BooleanLiteral false)).
  vm_compute. reflexivity.
Defined.

(** [true OR [missing]]: the left operand decides the disjunction, and
    the right operand is still reduced. *)
Lemma Evaluate_operands_left_to_right_witness :
  Evaluate noLibrary (BinaryExpr (BooleanLiteral true) OR (VarRef "missing")) ∅
  = Ret (false, Some (ErrArgumentNotFound "missing")).
Proof.
  apply (proj2 (Evaluate_operands_left_to_right noLibrary (BooleanLiteral true) OR
                  (VarRef "missing") ∅ (BooleanLiteral true) falseExpr
                  (ErrArgumentNotFound "missing"))).
  - vm_compute. reflexivity.
  - vm_compute. reflexivity.
Defined.

(** [[var0] AND [var0]]: a binding of another name changes nothing. *)
Lemma Evaluate_agreeOn_Variables_witness :
  Evaluate noLibrary (BinaryExpr (VarRef "var0") AND (VarRef "var0"))
    {[ "var0" := HBool true ]}
  = Evaluate noLibrary (BinaryExpr (VarRef "var0") AND (VarRef "var0"))
      (<[ "var1" := HBool false ]> {[ "var0" := HBool true ]}).
Proof.
  apply (Evaluate_agreeOn_Variables noLibrary
           (BinaryExpr (VarRef "var0") AND (VarRef "var0"))).
  intros name Hn. vm_compute in Hn.
  apply list_elem_of_singleton in Hn. subst name. vm_compute. reflexivity.
Defined.

(** ** Further properties of the operators *)

Lemma rangeAny_elem_of (val : string) (l : list string) :
  rangeAny val l = true <-> val ∈ l.
Proof.
  induction l as [|x rest IH]; simpl.
  - split; [discriminate|]. intros H. inversion H.
  - destruct (String.eqb_spec val x) as [->|Hne].
    + split; [intros _; left|reflexivity].
    + rewrite IH. split; [intros H; right; exact H|].
      intros H. inversion H; [contradiction|assumption].
Qed.

Lemma rangeIntersects_common (a b : list string) :
  rangeIntersects a b = true <-> exists x, x ∈ a /\ x ∈ b.
Proof.
  induction a as [|y rest IH]; simpl.
  - split; [discriminate|]. intros (x & Hx & _). inversion Hx.
  - destruct (rangeAny y b) eqn:Hy.
    + split; [|reflexivity]. intros _. exists y. split; [left|].
      apply rangeAny_elem_of. exact Hy.
    + rewrite IH. split.
      * intros (x & Hx & Hb). exists x. split; [right; exact Hx|exact Hb].
      * intros (x & Hx & Hb). inversion Hx as [|? ? ? Hx']; subst.
        -- apply rangeAny_elem_of in Hb. rewrite Hb in Hy. discriminate.
        -- exists x. split; assumption.
Qed.

Section OperatorsMore.

Variable lib : Library.

(** X6.  On two string sets [INTERSECTS] returns no error and is true
    exactly when a string is an element of both; the result does not
    depend on the order of the operands.  Against an empty set it is
    false. *)
Theorem INTERSECTS_common_element (a b : list string) :
  exists v : bool,
    applyOperator lib INTERSECTS (SliceStringLiteral a) (SliceStringLiteral b)
    = Ret (Some v, None)
    /\ (v = true <-> exists x, x ∈ a /\ x ∈ b)
    /\ applyOperator lib INTERSECTS (SliceStringLiteral b) (SliceStringLiteral a)
       = Ret (Some v, None).
Proof.
  exists (rangeIntersects a b). split; [reflexivity|].
  split; [apply rangeIntersects_common|].
  simpl. unfold applyINTERSECTS. simpl. do 3 f_equal.
  destruct (rangeIntersects a b) eqn:Hab, (rangeIntersects b a) eqn:Hba; try reflexivity.
  - apply rangeIntersects_common in Hab. destruct Hab as (x & Ha & Hb).
    assert (H : rangeIntersects b a = true)
      by (apply rangeIntersects_common; exists x; split; assumption).
    rewrite H in Hba. discriminate.
  - apply rangeIntersects_common in Hba. destruct Hba as (x & Hb & Ha).
    assert (H : rangeIntersects a b = true)
      by (apply rangeIntersects_common; exists x; split; assumption).
    rewrite H in Hab. discriminate.
Qed.

(** X7.  On a string set and a string [HAS] returns no error and is true
    exactly when the string is an element of the set: [set HAS x] has the
    result of [x IN set]. *)
Theorem HAS_membership (a : list string) (x : string) :
  exists v : bool,
    applyOperator lib HAS (SliceStringLiteral a) (StringLiteral x) = Ret (Some v, None)
    /\ (v = true <-> x ∈ a)
    /\ applyOperator lib IN (StringLiteral x) (SliceStringLiteral a) = Ret (Some v, None).
Proof.
  exists (rangeAny x a). split; [reflexivity|]. split; [apply rangeAny_elem_of|].
  simpl. do 3 f_equal.
  destruct (rangeFound String.eqb x a) eqn:Hf, (rangeAny x a) eqn:Hr; try reflexivity.
  - apply rangeFound_string, rangeAny_elem_of in Hf. rewrite Hf in Hr. discriminate.
  - apply rangeAny_elem_of, rangeFound_string in Hr. rewrite Hr in Hf. discriminate.
Qed.

(** X8.  On two operands of the same kind among string, number and boolean,
    [EQ] and [NEQ] return no error and [NEQ] is the negation of [EQ]. *)
Theorem EQ_NEQ_same_kind (l r : Expr) :
  shareKind l r = true ->
  exists v : bool,
    applyOperator lib EQ l r = Ret (Some v, None)
    /\ applyOperator lib NEQ l r = Ret (Some (negb v), None).
Proof.
  unfold shareKind. destruct l, r; simpl; intros H; try discriminate H;
    eexists; split; reflexivity.
Qed.

(** X9.  On two strings, [=~] matches the left operand against the pattern
    on the right, and [!~] has the negated result with the same error.  A
    pattern the library rejects makes [Evaluate] return [false] and the
    error of the library, for [=~] and for [!~]. *)
Theorem EREG_NEREG_strings (a b : string) args :
  applyOperator lib EREG (StringLiteral a) (StringLiteral b)
  = Ret (Some (fst (regexp_MatchString lib b a)), snd (regexp_MatchString lib b a))
  /\ applyOperator lib NEREG (StringLiteral a) (StringLiteral b)
     = Ret (Some (negb (fst (regexp_MatchString lib b a))),
            snd (regexp_MatchString lib b a))
  /\ match snd (regexp_MatchString lib b a) with
     | Some err =>
         Evaluate lib (BinaryExpr (StringLiteral a) EREG (StringLiteral b)) args
         = Ret (false, Some err)
         /\ Evaluate lib (BinaryExpr (StringLiteral a) NEREG (StringLiteral b)) args
            = Ret (false, Some err)
     | None =>
         Evaluate lib (BinaryExpr (StringLiteral a) EREG (StringLiteral b)) args
         = Ret (fst (regexp_MatchString lib b a), None)
         /\ Evaluate lib (BinaryExpr (StringLiteral a) NEREG (StringLiteral b)) args
            = Ret (negb (fst (regexp_MatchString lib b a)), None)
     end.
Proof.
  unfold Evaluate. simpl. unfold applyNEREG, applyEREG. simpl.
  destruct (regexp_MatchString lib b a) as [m [err|]]; simpl; repeat split; reflexivity.
Qed.

(** X10.  A string variable is [IN] a variable bound to a slice exactly
    when the string is an element of the slice.  Of a slice of interface
    values only the elements that are strings count: the others are left
    out, with no error. *)
Theorem IN_bound_slice (x set : string) (a : string) args :
  args !! x = Some (HString a) ->
  (forall (l : list string), args !! set = Some (HSliceString l) ->
     exists v : bool,
       Evaluate lib (BinaryExpr (VarRef x) IN (VarRef set)) args = Ret (v, None)
       /\ (v = true <-> a ∈ l))
  /\ (forall (slice : list HostValue), args !! set = Some (HSliceIface slice) ->
     exists v : bool,
       Evaluate lib (BinaryExpr (VarRef x) IN (VarRef set)) args = Ret (v, None)
       /\ (v = true <-> HString a ∈ slice)).
Proof.
  intros Hx. split.
  - intros l Hset. exists (rangeFound String.eqb a l).
    unfold Evaluate. simpl. rewrite Hx, Hset. simpl.
    split; [reflexivity|apply rangeFound_string].
  - intros slice Hset. exists (rangeFound String.eqb a (stringsOf slice)).
    unfold Evaluate. simpl. rewrite Hx, Hset. simpl.
    split; [reflexivity|]. rewrite rangeFound_string.
    clear Hset. induction slice as [|v rest IH]; simpl.
    + split; intros H; inversion H.
    + destruct v; rewrite ?elem_of_cons, IH; split;
        try (intros [H|H]; [discriminate H|exact H]);
        try (intros H; right; exact H).
      * intros [->|H]; [left; reflexivity|right; exact H].
      * intros [[= ->]|H]; [left; reflexivity|right; exact H].
Qed.

End OperatorsMore.

Lemma EQ_NEQ_same_kind_witness :
  exists v : bool,
    applyOperator noLibrary EQ (StringLiteral "OFF") (StringLiteral "OFF")
    = Ret (Some v, None)
    /\ applyOperator noLibrary NEQ (StringLiteral "OFF") (StringLiteral "OFF")
       = Ret (Some (negb v), None).
Proof.
  apply (EQ_NEQ_same_kind noLibrary (StringLiteral "OFF") (StringLiteral "OFF")).
  vm_compute. reflexivity.
Defined.

(** [[foo] in [foobar]] with [foobar] bound to a slice of strings. *)
Lemma IN_bound_slice_witness :
  exists v : bool,
    Evaluate noLibrary (BinaryExpr (VarRef "foo") IN (VarRef "foobar"))
      {[ "foo" := HString "findme"; "foobar" := HSliceString ["notme"; "findme"] ]}
    = Ret (v, None)
    /\ (v = true <-> "findme" ∈ ["notme"; "findme"]).
Proof.
  refine (proj1 (IN_bound_slice noLibrary "foo" "foobar" "findme"
                   {[ "foo" := HString "findme";
                      "foobar" := HSliceString ["notme"; "findme"] ]} _) _ _).
  - vm_compute. reflexivity.
  - vm_compute. reflexivity.
Defined.

Section BindingsMore.

Variable lib : Library.

Implicit Types (e : Expr) (args : gmap string HostValue) (c : Place).

Lemma evaluateSubtree_plug_panic c e args x :
  reaches lib args c = true ->
  evaluateSubtree lib e args = Panic x ->
  evaluateSubtree lib (plug c e) args = Panic x.
Proof.
  intros Hc He. induction c as [|inner IH|lhs IH op rhs|lhs op rhs IH]; simpl in *.
  - exact He.
  - auto.
  - rewrite (IH Hc). reflexivity.
  - destruct (evaluateSubtree lib lhs args) as [[lv [el|]]|y]; try discriminate.
    simpl. rewrite (IH Hc). reflexivity.
Qed.

Lemma Evaluate_of_panic e args x :
  evaluateSubtree lib e args = Panic x -> Evaluate lib e args = Panic x.
Proof.
  intros He. unfold Evaluate. rewrite He. destruct e; try reflexivity.
  discriminate He.
Qed.

(** X11.  What [Evaluate] makes of a variable, reached by the evaluation,
    whose bound value is not of a supported type.  A nil value makes it
    panic; a value whose kind is that of a supported type but whose type is
    another one (a named integer type, say) makes it panic in the type
    assertion; a value of any other kind gives the error [Unsupported
    argument] with the name and the kind. *)
Theorem Evaluate_unsupported_binding c name args :
  reaches lib args c = true ->
  (args !! name = Some HNil ->
   Evaluate lib (plug c (VarRef name)) args = Panic NilDereference)
  /\ (forall k, args !! name = Some (HOther k) -> assertedKind k = true ->
      Evaluate lib (plug c (VarRef name)) args = Panic TypeAssertion)
  /\ (forall k, args !! name = Some (HOther k) -> assertedKind k = false ->
      Evaluate lib (plug c (VarRef name)) args
      = Ret (false, Some (ErrUnsupportedArgument name k))).
Proof.
  intros Hc. repeat split.
  - intros Hn. apply Evaluate_of_panic, evaluateSubtree_plug_panic; [exact Hc|].
    simpl. rewrite Hn. reflexivity.
  - intros k Hn Hk. apply Evaluate_of_panic, evaluateSubtree_plug_panic; [exact Hc|].
    simpl. rewrite Hn. destruct k; try discriminate Hk; reflexivity.
  - intros k Hn Hk. apply Evaluate_of_error; [apply plug_not_nil; discriminate|].
    apply evaluateSubtree_plug_error; [exact Hc|].
    simpl. rewrite Hn. destruct k; try discriminate Hk; reflexivity.
Qed.

End BindingsMore.

(** [[var0] AND [v]] with [var0] bound to [true] and [v] to nil. *)
Lemma Evaluate_unsupported_binding_witness :
  Evaluate noLibrary (BinaryExpr (VarRef "var0") AND (VarRef "v"))
    {[ "var0" := HBool true; "v" := HNil ]}
  = Panic NilDereference.
Proof.
  refine (proj1 (Evaluate_unsupported_binding noLibrary
                   (InRHS (VarRef "var0") AND Here) "v"
                   {[ "var0" := HBool true; "v" := HNil ]} _) _).
  - vm_compute. reflexivity.
  - vm_compute. reflexivity.
Defined.

(** ** Further properties of [Variables] *)

Lemma firstOccurrences_NoDup_id (before l : list string) :
  NoDup l -> (forall x, x ∈ l -> x ∉ before) -> firstOccurrences before l = l.
Proof.
  revert before. induction l as [|y rest IH]; intros before Hnd Hout; simpl.
  - reflexivity.
  - apply NoDup_cons in Hnd. destruct Hnd as [Hy Hnd].
    rewrite bool_decide_eq_false_2 by (apply Hout; left).
    f_equal. apply IH; [exact Hnd|].
    intros x Hx. rewrite elem_of_app, list_elem_of_singleton.
    intros [Hb| ->]; [|contradiction].
    apply (Hout x); [right; exact Hx|exact Hb].
Qed.

(** X12.  [removeDuplicates] leaves a list without duplicates as it is, and
    so does nothing more when applied twice; its result is never longer
    than the list. *)
Theorem removeDuplicates_idempotent (a : list string) :
  (NoDup a -> removeDuplicates a = a)
  /\ removeDuplicates (removeDuplicates a) = removeDuplicates a
  /\ (length (removeDuplicates a) <= length a)%nat.
Proof.
  assert (Hid : forall l : list string, NoDup l -> removeDuplicates l = l).
  { intros l Hl. rewrite removeDuplicates_firstOccurrences.
    apply firstOccurrences_NoDup_id; [exact Hl|]. intros x _ H. inversion H. }
  split; [apply Hid|]. split.
  - apply Hid. rewrite removeDuplicates_firstOccurrences. apply firstOccurrences_NoDup.
  - rewrite removeDuplicates_firstOccurrences. generalize (@nil string).
    induction a as [|y rest IH]; intros before; simpl; [lia|].
    destruct (bool_decide (y ∈ before)); simpl; specialize (IH (before ++ [y])%list); lia.
Qed.

Lemma removeDuplicates_idempotent_witness :
  removeDuplicates ["a"; "b"] = ["a"; "b"].
Proof.
  apply (proj1 (removeDuplicates_idempotent ["a"; "b"])).
  apply (bool_decide_unpack _). vm_compute. reflexivity.
Defined.

(** ** Further properties of the parser *)

(** X13.  The buffer holds one token: after [unscan], [scan] returns the
    token that was read last and leaves the parser as it was before the
    [unscan], without reading from the scanner; a second [unscan] in a row
    changes nothing. *)
Theorem scan_unscan p t txt p' :
  scan p = (t, txt, p') ->
  scan (unscan p') = (t, txt, p') /\ unscan (unscan p') = unscan p'.
Proof.
  unfold scan. destruct (buf_n p =? 0)%Z eqn:Hn; simpl.
  - destruct (scanner_Scan (s p)) as [[t1 txt1] rest]. intros [= <- <- <-].
    apply Z.eqb_eq in Hn. rewrite Hn. split; reflexivity.
  - intros [= <- <- <-]. split; reflexivity.
Qed.

Lemma scan_unscan_witness :
  scan (unscan (mkParser [] scanner_Ident "true" 0))
  = (scanner_Ident, "true", mkParser [] scanner_Ident "true" 0)
  /\ unscan (unscan (mkParser [] scanner_Ident "true" 0))
     = unscan (mkParser [] scanner_Ident "true" 0).
Proof.
  apply (scan_unscan (NewParser [(scanner_Ident, "true")])). reflexivity.
Defined.

Lemma rotate_infixOf expr op rhs :
  infixOf (rotate expr op rhs) = (infixOf expr ++ inl op :: infixOf rhs)%list.
Proof.
  destruct expr as [| | | | | | | |lhs o r]; try reflexivity.
  simpl. destruct (Precedence o <=? Precedence op)%Z; simpl.
  - rewrite <- app_assoc. reflexivity.
  - reflexivity.
Qed.

(** X14.  The rotations of [parseExpr] never reorder: read from left to
    right, the tree built from a first operand and any sequence of
    operators and operands has the operands and the operators in the order
    in which they came. *)
Theorem rotate_keeps_order (steps : list (Token * Expr)) (expr : Expr) :
  infixOf (fold_left (fun e step => rotate e (fst step) (snd step)) steps expr)
  = (infixOf expr
     ++ flat_map (fun step => inl (fst step) :: infixOf (snd step)) steps)%list.
Proof.
  revert expr. induction steps as [|[op rhs] rest IH]; intros expr; simpl.
  - rewrite app_nil_r. reflexivity.
  - rewrite IH, rotate_infixOf, <- app_assoc. reflexivity.
Qed.





Section ParserMore.

Variable lib : Library.

Lemma parseOperand_wellFormed tok lit expr :
  parseOperand lib tok lit = Ret (expr, None) -> wellFormed expr = true.
Proof.
  destruct tok; simpl; try discriminate; try (intros [= <-]; reflexivity).
  - destruct (strconv_ParseFloat lib lit) as [v [err|]]; [discriminate|].
    intros [= <-]. reflexivity.
  - destruct (unquote lit); simpl; [intros [= <-]; reflexivity|discriminate].
  - unfold parseArray. destruct (json_Unmarshal lib _) as [mapVal err].
    destruct mapVal as [|[s0|f|b| |l|l] rest]; try discriminate.
    + destruct (assertStrings _); simpl; [intros [= <- _]; reflexivity|discriminate].
    + destruct (assertNumbers _); simpl; [intros [= <- _]; reflexivity|discriminate].
Qed.

Lemma rotate_wellFormed expr op rhs :
  wellFormed expr = true -> isOperator op = true -> wellFormed rhs = true ->
  wellFormed (rotate expr op rhs) = true.
Proof.
  intros He Hop Hr. destruct expr; simpl in *; rewrite ?He, ?Hop, ?Hr; try reflexivity.
  destruct (Precedence Op <=? Precedence op)%Z; simpl.
  - apply andb_prop in He. destruct He as [He Hr0].
    apply andb_prop in He. destruct He as [Hl Ho].
    rewrite Hl, Ho, Hr0, Hop, Hr. reflexivity.
  - rewrite He, Hop, Hr. reflexivity.
Qed.

Lemma parse_wellFormed fuel :
  (forall p expr p', parseExpr lib fuel p = Some (Ret (expr, None, p')) ->
     wellFormed expr = true)
  /\ (forall expr0 p expr p', wellFormed expr0 = true ->
     parseExprLoop lib fuel expr0 p = Some (Ret (expr, None, p')) ->
     wellFormed expr = true)
  /\ (forall p expr p', parseUnaryExpr lib fuel p = Some (Ret (expr, None, p')) ->
     wellFormed expr = true).
Proof.
  induction fuel as [|fuel (IHe & IHl & IHu)];
    [repeat split; intros; discriminate|].
  split; [|split].
  - intros p expr p'. simpl.
    destruct (parseUnaryExpr lib fuel p) as [[[[e1 [err|]] p1]|x]|] eqn:Hu;
      try discriminate.
    apply IHl. apply (IHu _ _ _ Hu).
  - intros expr0 p expr p' H0. simpl.
    destruct (scanWithMapping fuel p) as [[[op tx] p1]|]; [|discriminate].
    destruct (bool_decide (op = ILLEGAL)); [discriminate|].
    destruct (isOperator op) eqn:Hop; simpl.
    + destruct (parseUnaryExpr lib fuel p1) as [[[[rhs [err|]] p2]|x]|] eqn:Hu;
        try discriminate.
      apply IHl. apply rotate_wellFormed; [exact H0|exact Hop|apply (IHu _ _ _ Hu)].
    + intros [= <- _]. exact H0.
  - intros p expr p'. simpl.
    destruct (scanWithMapping fuel p) as [[[tok lit] p1]|]; [|discriminate].
    destruct (bool_decide (tok = LPAREN)).
    + destruct (parseExpr lib fuel p1) as [[[[e1 [err|]] p2]|x]|] eqn:He;
        try discriminate.
      destruct (scanWithMapping fuel p2) as [[[tok2 lit2] p3]|]; [|discriminate].
      destruct (negb (bool_decide (tok2 = RPAREN))); [discriminate|].
      intros [= <- _]. simpl. apply (IHe _ _ _ He).
    + destruct (parseOperand lib tok lit) as [[e1 err]|x] eqn:Ho; [|discriminate].
      intros [= -> -> _]. apply (parseOperand_wellFormed _ _ _ Ho).
Qed.

(** X16.  An expression that [Parse] returns with no error has no nil node,
    and the token of each of its binary nodes is an operator. *)
Theorem Parse_wellFormed fuel tokens expr :
  Parse lib fuel tokens = Some (Ret (expr, None)) -> wellFormed expr = true.
Proof.
  unfold Parse.
  destruct (parseExpr lib fuel (NewParser tokens)) as [[[[e1 err] p1]|x]|] eqn:He;
    try discriminate.
  intros [= -> ->]. apply (proj1 (parse_wellFormed fuel) _ _ _ He).
Qed.

End ParserMore.

Lemma Parse_wellFormed_witness :
  wellFormed (BinaryExpr (BooleanLiteral false) OR
                (BinaryExpr (BooleanLiteral true) AND (BooleanLiteral false)))
  = true.
Proof.
  apply (Parse_wellFormed noLibrary 10
           [(scanner_Ident, "false"); (scanner_Ident, "OR"); (scanner_Ident, "true");
            (scanner_Ident, "AND"); (scanner_Ident, "false")]).
  vm_compute. reflexivity.
Defined.

(** One turn of the loop of [scanArg] on a segment that another one
    follows. *)
Lemma scanArgLoop_segment fuel txt sep t name rest t0 tt0 :
  t <> chr "@" ->
  scanArgLoop (S fuel) txt sep
    (mkParser ((t, name) :: (chr "]", "]") :: (chr "[", "[") :: rest) t0 tt0 0)
  = scanArgLoop fuel (txt +:+ sep +:+ name) "." (mkParser rest (chr "[") "[" 0).
Proof.
  intros Ht. simpl. unfold scan. simpl.
  rewrite (proj2 (Z.eqb_neq t (chr "@")) Ht). reflexivity.
Qed.

(** The turn on the last segment. *)
Lemma scanArgLoop_last fuel txt sep t name after t0 tt0 :
  t <> chr "@" ->
  (forall x rest, after = x :: rest -> fst x <> chr "[") ->
  scanArgLoop (S fuel) txt sep
    (mkParser ((t, name) :: (chr "]", "]") :: after) t0 tt0 0)
  = Some (chr "]", txt +:+ sep +:+ name, None,
          unscan (snd (scan (mkParser after (chr "]") "]" 0)))).
Proof.
  intros Ht Hafter. simpl. unfold scan. simpl.
  rewrite (proj2 (Z.eqb_neq t (chr "@")) Ht).
  destruct after as [|[ti xi] rest]; simpl; [reflexivity|].
  rewrite (proj2 (Z.eqb_neq ti (chr "[")) (Hafter _ _ eq_refl)). reflexivity.
Qed.

(** The loop of [scanArg] on the segments of a path: it stands after an
    opening bracket, with the text [txt] read so far. *)
Lemma scanArgLoop_path (more : list (rune * string)) :
  forall (name : rune * string) (after : list (rune * string))
         (txt sep : string) (t0 : rune) (tt0 : string) (k : nat),
  Forall (fun n => fst n <> chr "@") (name :: more) ->
  (forall x rest, after = x :: rest -> fst x <> chr "[") ->
  scanArgLoop (S (length more) + k) txt sep
    (mkParser (name :: (chr "]", "]") :: flat_map bracket more ++ after)%list t0 tt0 0)
  = Some (chr "]", dotted (txt +:+ sep +:+ snd name) (map snd more), None,
          unscan (snd (scan (mkParser after (chr "]") "]" 0)))).
Proof.
  induction more as [|next more IH]; intros [t name] after txt sep t0 tt0 k Hat Hafter;
    apply Forall_cons in Hat; destruct Hat as [Ht Hat]; simpl in Ht.
  - apply scanArgLoop_last; assumption.
  - destruct next as [t' name'].
    change (scanArgLoop (S (S (length more) + k)) txt sep
              (mkParser ((t, name) :: (chr "]", "]") :: (chr "[", "[")
                         :: ((t', name') :: (chr "]", "]")
                             :: flat_map bracket more ++ after)%list) t0 tt0 0)
            = Some (chr "]",
                    dotted ((txt +:+ sep +:+ name) +:+ "." +:+ name') (map snd more),
                    None, unscan (snd (scan (mkParser after (chr "]") "]" 0))))).
    rewrite (scanArgLoop_segment _ _ _ _ _ _ _ _ Ht).
    apply (IH (t', name') after _ "." _ _ k Hat Hafter).
Qed.

(** X17.  Chained brackets are one variable: the parser reads the segments
    [[a][b][c]] as the identifier [a.b.c], the texts of the names joined by
    dots, and pushes back the token that follows the last closing
    bracket. *)
Theorem scanWithMapping_path (name : rune * string) (more after : list (rune * string))
    (t0 : rune) (tt0 : string) (k : nat) :
  Forall (fun n => fst n <> chr "@") (name :: more) ->
  (forall x rest, after = x :: rest -> fst x <> chr "[") ->
  scanWithMapping (S (length more) + k)
    (mkParser (flat_map bracket (name :: more) ++ after)%list t0 tt0 0)
  = Some (IDENT, dotted (snd name) (map snd more),
          unscan (snd (scan (mkParser after (chr "]") "]" 0)))).
Proof.
  intros Hat Hafter.
  pose proof (scanArgLoop_path more name after EmptyString EmptyString
                (chr "[") "[" k Hat Hafter) as Hloop.
  unfold scanWithMapping, scanArg. unfold scan at 1.
  cbn [buf_n Z.eqb negb flat_map bracket app s scanner_Scan].
  cbv beta iota. change ((chr "[" =? scanner_EOF)%Z) with false.
  change ((chr "[" =? chr "(")%Z) with false.
  change ((chr "[" =? chr ")")%Z) with false.
  change ((chr "[" =? chr "-")%Z) with false.
  change ((chr "[" =? scanner_Float)%Z || (chr "[" =? scanner_Int)%Z) with false.
  change ((chr "[" =? chr "$")%Z) with false.
  change ((chr "[" =? chr "[")%Z) with true.
  cbv beta iota. simpl app in Hloop |- *.
  rewrite Hloop. reflexivity.
Qed.

(** [[foo][dfs][a]] before [==]. *)
Lemma scanWithMapping_path_witness :
  scanWithMapping 3
    (NewParser [(chr "[", "["); (scanner_Ident, "foo"); (chr "]", "]");
                (chr "[", "["); (scanner_Ident, "dfs"); (chr "]", "]");
                (chr "[", "["); (scanner_Ident, "a"); (chr "]", "]");
                (chr "=", "="); (chr "=", "=")])
  = Some (IDENT, "foo.dfs.a", mkParser [(chr "=", "=")] (chr "=") "=" 1).
Proof.
  apply (scanWithMapping_path (scanner_Ident, "foo")
           [(scanner_Ident, "dfs"); (scanner_Ident, "a")]
           [(chr "=", "="); (chr "=", "=")] 0%Z EmptyString 0).
  - repeat constructor; discriminate.
  - intros x rest [= <- _]. discriminate.
Defined.

Lemma append_assoc (a b c : string) : (a +:+ b) +:+ c = a +:+ b +:+ c.
Proof.
  induction a as [|x a IH]; [reflexivity|].
  change (String x ((a +:+ b) +:+ c) = String x (a +:+ b +:+ c)). f_equal. exact IH.
Qed.

Lemma substring_prefix (a b : string) : substring 0 (String.length a) (a +:+ b) = a.
Proof.
  induction a as [|x a IH]; [destruct b; reflexivity|].
  change (String x (substring 0 (String.length a) (a +:+ b)) = String x a).
  f_equal. exact IH.
Qed.

Lemma length_snoc (a : string) (c : ascii) :
  String.length (a +:+ String c EmptyString) = S (String.length a).
Proof.
  induction a as [|x a IH]; [reflexivity|].
  change (S (String.length (a +:+ String c EmptyString)) = S (S (String.length a))).
  f_equal. exact IH.
Qed.

(** [unquote] takes off the first and the last byte, whatever they are. *)
Lemma unquote_delimited (c d : ascii) (body : string) :
  unquote (String c (body +:+ String d EmptyString)) = Ret body.
Proof.
  unfold unquote. cbn [String.length]. rewrite length_snoc.
  simpl. rewrite Nat.sub_0_r. rewrite substring_prefix. reflexivity.
Qed.

(** One turn of the loop of the pattern case on a token that is no
    slash. *)
Lemma scanPattern_step fuel txt t x rest t0 tt0 :
  t <> chr "/" ->
  scanPattern (S fuel) txt (mkParser ((t, x) :: rest) t0 tt0 0)
  = scanPattern fuel (txt +:+ x) (mkParser rest t x 0).
Proof.
  intros Ht. simpl. unfold scan. simpl.
  rewrite (proj2 (Z.eqb_neq t (chr "/")) Ht). reflexivity.
Qed.

(** The loop of the pattern case up to the closing slash. *)
Lemma scanPattern_body (body : list (rune * string)) :
  forall (after : list (rune * string)) (txt : string) (t0 : rune) (tt0 : string)
         (k : nat),
  Forall (fun tok => fst tok <> chr "/") body ->
  scanPattern (S (length body) + k) txt
    (mkParser (body ++ (chr "/", "/") :: after)%list t0 tt0 0)
  = Some (STRING, txt +:+ textOf body +:+ "/", mkParser after (chr "/") "/" 0).
Proof.
  induction body as [|[t x] body IH]; intros after txt t0 tt0 k Hbody.
  - reflexivity.
  - apply Forall_cons in Hbody. destruct Hbody as [Ht Hbody]. simpl in Ht.
    change (scanPattern (S (S (length body) + k)) txt
              (mkParser ((t, x) :: (body ++ (chr "/", "/") :: after)%list) t0 tt0 0)
            = Some (STRING, txt +:+ (x +:+ textOf body) +:+ "/",
                    mkParser after (chr "/") "/" 0)).
    rewrite (scanPattern_step _ _ _ _ _ _ _ Ht), (IH after _ _ _ k Hbody).
    rewrite !append_assoc. reflexivity.
Qed.

Section PatternMore.

Variable lib : Library.

(** X18.  A pattern between slashes is a string literal: the parser joins
    the texts of the tokens between the two slashes, with nothing between
    them (the blanks the scanner skipped are lost), and takes the slashes
    off. *)
Theorem parseUnaryExpr_pattern (body after : list (rune * string))
    (t0 : rune) (tt0 : string) (k : nat) :
  Forall (fun tok => fst tok <> chr "/") body ->
  parseUnaryExpr lib (S (S (length body) + k))
    (mkParser ((chr "/", "/") :: body ++ (chr "/", "/") :: after)%list t0 tt0 0)
  = Some (Ret (StringLiteral (textOf body), None, mkParser after (chr "/") "/" 0)).
Proof.
  intros Hbody.
  assert (Hscan : scanWithMapping (S (length body) + k)
            (mkParser ((chr "/", "/") :: body ++ (chr "/", "/") :: after)%list t0 tt0 0)
          = Some (STRING, "/" +:+ textOf body +:+ "/",
                  mkParser after (chr "/") "/" 0)).
  { unfold scanWithMapping. unfold scan at 1. cbn [buf_n Z.eqb negb s scanner_Scan].
    cbv beta iota.
    change ((chr "/" =? scanner_EOF)%Z) with false.
    change ((chr "/" =? chr "(")%Z) with false.
    change ((chr "/" =? chr ")")%Z) with false.
    change ((chr "/" =? chr "-")%Z) with false.
    change ((chr "/" =? scanner_Float)%Z || (chr "/" =? scanner_Int)%Z) with false.
    change ((chr "/" =? chr "$")%Z) with false.
    change ((chr "/" =? chr "[")%Z) with false.
    change ((chr "/" =? chr "!")%Z) with false.
    change ((chr "/" =? chr ">")%Z) with false.
    change ((chr "/" =? chr "<")%Z) with false.
    change ((chr "/" =? chr "=")%Z) with false.
    change ((chr "/" =? chr "/")%Z) with true.
    cbv beta iota. apply scanPattern_body. exact Hbody. }
  cbn [parseUnaryExpr]. rewrite Hscan. cbn [bool_decide decide_rel].
  change (bool_decide (STRING = LPAREN)) with false. cbv beta iota.
  cbn [parseOperand]. change ("/" +:+ textOf body +:+ "/")
    with (String "/" (textOf body +:+ String "/" EmptyString)).
  rewrite unquote_delimited. reflexivity.
Qed.

End PatternMore.

(** The pattern of [/^5\d\d/]: the scanner delivers a caret, a number, a
    backslash, an identifier, a backslash and an identifier. *)
Lemma parseUnaryExpr_pattern_witness :
  parseUnaryExpr noLibrary 8
    (NewParser [(chr "/", "/"); (chr "^", "^"); (scanner_Int, "5");
                (chr "\", "\"); (scanner_Ident, "d"); (chr "\", "\");
                (scanner_Ident, "d"); (chr "/", "/")])
  = Some (Ret (StringLiteral "^5\d\d", None, mkParser [] (chr "/") "/" 0)).
Proof.
  apply (parseUnaryExpr_pattern noLibrary
           [(chr "^", "^"); (scanner_Int, "5"); (chr "\", "\"); (scanner_Ident, "d");
            (chr "\", "\"); (scanner_Ident, "d")] [] 0%Z EmptyString 0).
  repeat constructor; discriminate.
Defined.







Section UnclosedMore.

Variable lib : Library.


End UnclosedMore.


(** ** Chains of one connective *)

Section ChainMore.

Variable lib : Library.

(** One turn of the loop of [parseExpr] on a connective and a boolean
    word. *)
Lemma parseExprLoop_connective fuel c b expr rest t0 tt0 :
  parseExprLoop lib (S (S fuel)) expr
    (mkParser ((scanner_Ident, connectiveWord c) :: boolToken b :: rest) t0 tt0 0)
  = parseExprLoop lib (S fuel) (rotate expr (connectiveToken c) (BooleanLiteral b))
      (mkParser rest scanner_Ident (snd (boolToken b)) 0).
Proof. destruct c, b; reflexivity. Qed.

Lemma parseExprLoop_chain c (bs : list bool) :
  forall expr t0 tt0 k,
  exists p',
    parseExprLoop lib (S (length bs + k)) expr (mkParser (chainTokens c bs) t0 tt0 0)
    = Some (Ret (fold_left (fun e b => rotate e (connectiveToken c) (BooleanLiteral b))
                   bs expr, None, p')).
Proof.
  induction bs as [|b rest IH]; intros expr t0 tt0 k.
  - eexists. reflexivity.
  - change (chainTokens c (b :: rest))
      with ((scanner_Ident, connectiveWord c) :: boolToken b :: chainTokens c rest).
    change (S (length (b :: rest) + k)) with (S (S (length rest + k))).
    rewrite parseExprLoop_connective. apply IH.
Qed.

(** The tree of a chain: the first operand at the left of the root, the
    others nested to the left under its right operand. *)
Lemma rotate_chain op (bs : list bool) (b0 b1 : bool) :
  fold_left (fun e b => rotate e op (BooleanLiteral b)) (b1 :: bs) (BooleanLiteral b0)
  = BinaryExpr (BooleanLiteral b0) op
      (fold_left (fun e b => BinaryExpr e op (BooleanLiteral b)) bs (BooleanLiteral b1)).
Proof.
  simpl. generalize (BooleanLiteral b1) as right_.
  induction bs as [|b rest IH]; intros right_; simpl; [reflexivity|].
  rewrite Z.leb_refl. apply IH.
Qed.

Lemma evaluateSubtree_left_chain c (bs : list bool) (b1 : bool) args :
  evaluateSubtree lib
    (fold_left (fun e b => BinaryExpr e (connectiveToken c) (BooleanLiteral b)) bs
       (BooleanLiteral b1)) args
  = Ret (BooleanLiteral (fold_left (connectiveValue c) bs b1), None).
Proof.
  revert b1. induction bs as [|b rest IH] using rev_ind; intros b1; [reflexivity|].
  rewrite !fold_left_app. simpl. rewrite IH. destruct c; reflexivity.
Qed.

(** X20.  A chain of one boolean connective over the words [true] and
    [false] parses and evaluates with no error, and its value is that of
    [b0 c (((b1 c b2) c b3) ... c bn)]: the first operand against the
    others grouped from the left.  For [OR] and [AND] it is the disjunction
    and the conjunction of the operands (lemma [chainValue_OR_AND]). *)
Theorem Parse_Evaluate_chain c (b0 : bool) (bs : list bool) (k : nat) args :
  exists expr,
    Parse lib (S (S (length bs + k))) (boolToken b0 :: chainTokens c bs)
    = Some (Ret (expr, None))
    /\ Evaluate lib expr args = Ret (chainValue c b0 bs, None).
Proof.
  destruct (parseExprLoop_chain c bs (BooleanLiteral b0) scanner_Ident
              (snd (boolToken b0)) k) as [p' Hloop].
  exists (fold_left (fun e b => rotate e (connectiveToken c) (BooleanLiteral b)) bs
            (BooleanLiteral b0)).
  split.
  - unfold Parse.
    assert (Hfirst : parseExpr lib (S (S (length bs + k)))
                       (NewParser (boolToken b0 :: chainTokens c bs))
                     = parseExprLoop lib (S (length bs + k)) (BooleanLiteral b0)
                         (mkParser (chainTokens c bs) scanner_Ident
                            (snd (boolToken b0)) 0)).
    { destruct b0; reflexivity. }
    rewrite Hfirst, Hloop. reflexivity.
  - destruct bs as [|b1 rest]; [reflexivity|].
    rewrite rotate_chain. unfold Evaluate. cbn [evaluateSubtree].
    rewrite evaluateSubtree_left_chain. destruct c; reflexivity.
Qed.

End ChainMore.

(** The chains of [OR] and of [AND] are the disjunction and the
    conjunction of their operands. *)
Lemma chainValue_OR_AND (b0 : bool) (bs : list bool) :
  chainValue ConnOR b0 bs = existsb (fun b => b) (b0 :: bs)
  /\ chainValue ConnAND b0 bs = forallb (fun b => b) (b0 :: bs).
Proof.
  assert (Hor : forall l a, fold_left orb l a = a || existsb (fun b => b) l).
  { induction l as [|x l IH]; intros a; simpl; [destruct a; reflexivity|].
    rewrite IH. destruct a, x; reflexivity. }
  assert (Hand : forall l a, fold_left andb l a = a && forallb (fun b => b) l).
  { induction l as [|x l IH]; intros a; simpl; [destruct a; reflexivity|].
    rewrite IH. destruct a, x; reflexivity. }
  destruct bs as [|b1 rest]; simpl.
  - destruct b0; split; reflexivity.
  - split; [apply (f_equal (orb b0)), Hor|apply (f_equal (andb b0)), Hand].
Qed.

(** ** Operand kinds of the connectives and of the comparisons *)

Section KindsMore.

Variable lib : Library.

Implicit Types (l r lv rv : Expr) (args : gmap string HostValue).

(** What [Evaluate] makes of a binary node whose operands reduce. *)
Lemma Evaluate_reduced l op r args lv rv :
  evaluateSubtree lib l args = Ret (lv, None) ->
  evaluateSubtree lib r args = Ret (rv, None) ->
  Evaluate lib (BinaryExpr l op r) args
  = match applyOperator lib op lv rv with
    | Panic x => Panic x
    | Ret (_, Some err) => Ret (false, Some err)
    | Ret (Some v, None) => Ret (v, None)
    | Ret (None, None) => Ret (false, Some (ErrUnexpectedRoot NilExpr))
    end.
Proof.
  intros Hl Hr. unfold Evaluate. simpl. rewrite Hl. simpl. rewrite Hr. simpl.
  destruct (applyOperator lib op lv rv) as [[[v|] [err|]]|x]; reflexivity.
Qed.

(** X21.  A comparison needs two numbers and a connective two booleans,
    whatever the operands were before they were reduced.  When the left
    operand reduces to something else, [Evaluate] returns [false] and the
    error that names it ([Literal is not a number], [Literal is not a
    boolean]); when only the right one does, the error names the right
    one. *)
Theorem Evaluate_operand_kinds l r args lv rv :
  evaluateSubtree lib l args = Ret (lv, None) ->
  evaluateSubtree lib r args = Ret (rv, None) ->
  (forall c : Comparison,
     Evaluate lib (BinaryExpr l (comparisonToken c) r) args
     = match lv, rv with
       | NumberLiteral a, NumberLiteral b => Ret (comparisonValue c a b, None)
       | NumberLiteral _, _ => Ret (false, Some (ErrNotNumber rv))
       | _, _ => Ret (false, Some (ErrNotNumber lv))
       end)
  /\ (forall c : Connective,
     Evaluate lib (BinaryExpr l (connectiveToken c) r) args
     = match lv, rv with
       | BooleanLiteral a, BooleanLiteral b => Ret (connectiveValue c a b, None)
       | BooleanLiteral _, _ => Ret (false, Some (ErrNotBoolean rv))
       | _, _ => Ret (false, Some (ErrNotBoolean lv))
       end).
Proof.
  intros Hl Hr. split; intros c; rewrite (Evaluate_reduced l _ r args lv rv Hl Hr);
    destruct c, lv, rv; reflexivity.
Qed.

End KindsMore.

(** [[var0] > true] with [var0] bound to [43]. *)
Lemma Evaluate_operand_kinds_witness :
  Evaluate noLibrary (BinaryExpr (VarRef "var0") GT (BooleanLiteral true))
    {[ "var0" := HInt 43 ]}
  = Ret (false, Some (ErrNotNumber (BooleanLiteral true))).
Proof.
  refine (proj1 (Evaluate_operand_kinds noLibrary (VarRef "var0") (BooleanLiteral true)
                   {[ "var0" := HInt 43 ]} (NumberLiteral (float64_of_int 43))
                   (BooleanLiteral true) _ _) CmpGT).
  - vm_compute. reflexivity.
  - vm_compute. reflexivity.
Defined.

(** ** The positional evaluator and the evaluator by name *)

Section LegacyMore.

Variable lib : Library.
Variable Atoi : string -> Z * option error.

Lemma Legacy_resolve_agrees name v :
  Legacy.noSlice v = true -> Legacy.resolve name v = resolve name v.
Proof. destruct v as [| | | | | | | | | |k]; try discriminate; reflexivity. Qed.

Lemma Legacy_applyOperator_agrees op l r :
  Legacy.sameOperator op = true ->
  applyOperator lib op l r = Ret (Legacy.applyOperator op l r).
Proof. destruct op; try discriminate; reflexivity. Qed.

Lemma Legacy_evaluateSubtree_agrees e args bindings :
  Legacy.compatible Atoi e args bindings ->
  Legacy.evaluateSubtree Atoi e args
  = Legacy.shared (evaluateSubtree lib e bindings).
Proof.
  induction e as [| | | | | |name|inner IH|lhs IHl op rhs IHr]; simpl;
    try (intros _; reflexivity).
  - intros (i & v & Hatoi & Hargs & Hbind & Hv). rewrite Hatoi, Hbind.
    pose proof (lookup_lt_Some _ _ _ Hargs) as Hlt.
    rewrite (proj2 (Z.leb_gt _ _)) by lia.
    rewrite (proj2 (Z.ltb_ge _ _)) by lia.
    rewrite Nat2Z.id, Hargs, (Legacy_resolve_agrees name v Hv). reflexivity.
  - exact IH.
  - intros (Hop & Hl & Hr). rewrite (IHl Hl), (IHr Hr).
    destruct (evaluateSubtree lib lhs bindings) as [[lv [el|]]|x]; try reflexivity.
    simpl. destruct (evaluateSubtree lib rhs bindings) as [[rv [er|]]|x];
      try reflexivity.
    simpl. rewrite (Legacy_applyOperator_agrees op lv rv Hop). simpl.
    destruct (Legacy.applyOperator op lv rv) as [result err]. reflexivity.
Qed.

(** X22.  The evaluator by name takes over from the positional one: on an
    expression whose operators the two share, whose variables name
    positions of the argument list, and with a binding map that binds each
    of these names to the argument at its position (no slice among them),
    the two evaluators have the same outcome: the same boolean and the same
    error, or the same panic. *)
Theorem Legacy_Evaluate_agrees e args bindings :
  Legacy.compatible Atoi e args bindings ->
  Legacy.Evaluate Atoi e args = Legacy.shared (Evaluate lib e bindings).
Proof.
  intros H. unfold Legacy.Evaluate, Evaluate.
  rewrite (Legacy_evaluateSubtree_agrees e args bindings H).
  destruct e; try reflexivity.
  all: destruct (evaluateSubtree lib _ bindings) as [[result [err|]]|x];
    try reflexivity; destruct result; reflexivity.
Qed.

(** X23.  A position that is not in the argument list.  When the index
    [strconv.Atoi] reads in the name, dollar signs left out, is the number
    of arguments or more, the positional [Evaluate] returns [false] and the
    error [Not enough arguments provided]; when the index is negative, the
    test [index >= len(args)] lets it through and [args[index]] panics;
    when [strconv.Atoi] fails, the error is [Failed to resolve argument
    index]. *)
Theorem Legacy_Evaluate_index name args :
  (forall index, Atoi (Legacy.removeDollars name) = (index, None) ->
     (Z.of_nat (length args) <= index)%Z ->
     Legacy.Evaluate Atoi (VarRef name) args
     = Ret (false, Some (Legacy.NotEnoughArguments (length args) name)))
  /\ (forall index, Atoi (Legacy.removeDollars name) = (index, None) ->
     (index < 0)%Z ->
     Legacy.Evaluate Atoi (VarRef name) args = Panic SliceBounds)
  /\ (forall index err, Atoi (Legacy.removeDollars name) = (index, Some err) ->
     Legacy.Evaluate Atoi (VarRef name) args
     = Ret (false, Some (Legacy.FailedIndex err))).
Proof.
  unfold Legacy.Evaluate. simpl. repeat split.
  - intros index Hatoi Hge. rewrite Hatoi.
    rewrite (proj2 (Z.leb_le _ _) Hge). reflexivity.
  - intros index Hatoi Hneg. rewrite Hatoi.
    rewrite (proj2 (Z.leb_gt _ _)) by lia.
    rewrite (proj2 (Z.ltb_lt _ _) Hneg). reflexivity.
  - intros index err Hatoi. rewrite Hatoi. reflexivity.
Qed.

End LegacyMore.

(** The condition of the README, [$0 > 10 AND $1 == "OFF"] on [14] and
    [OFF], and the same with the two values bound to the names [$0] and
    [$1]. *)
Lemma Legacy_Evaluate_agrees_witness :
  Legacy.Evaluate Legacy.digitsAtoi
    (BinaryExpr (BinaryExpr (VarRef "$0") GT (NumberLiteral 10%float)) AND
       (BinaryExpr (VarRef "$1") EQ (StringLiteral "OFF")))
    [HInt 14; HString "OFF"]
  = Legacy.shared
      (Evaluate noLibrary
         (BinaryExpr (BinaryExpr (VarRef "$0") GT (NumberLiteral 10%float)) AND
            (BinaryExpr (VarRef "$1") EQ (StringLiteral "OFF")))
         {[ "$0" := HInt 14; "$1" := HString "OFF" ]}).
Proof.
  apply (Legacy_Evaluate_agrees noLibrary Legacy.digitsAtoi).
  simpl. repeat split.
  - exists 0%nat, (HInt 14). repeat split; vm_compute; reflexivity.
  - exists 1%nat, (HString "OFF"). repeat split; vm_compute; reflexivity.
Defined.

(** [$5] with no argument, the test of the positional evaluator. *)
Lemma Legacy_Evaluate_index_witness :
  Legacy.Evaluate Legacy.digitsAtoi (VarRef "$5") []
  = Ret (false, Some (Legacy.NotEnoughArguments 0 "$5")).
Proof.
  apply (proj1 (Legacy_Evaluate_index Legacy.digitsAtoi "$5" []) 5%Z).
  - vm_compute. reflexivity.
  - simpl. lia.
Defined.

(** ** The words [true] and [false] *)

Section WordsMore.

Variable lib : Library.

(** X24.  The words [true] and [false], in any letter case, are complete
    conditions: [Parse] returns the boolean literal and [Evaluate] returns
    its value with no error, whatever the bindings. *)
Theorem Parse_Evaluate_boolean_word (txt : string) (b : bool) (k : nat) args :
  ToUpper txt = (if b then "TRUE" else "FALSE") ->
  Parse lib (S (S k)) [(scanner_Ident, txt)] = Some (Ret (BooleanLiteral b, None))
  /\ Evaluate lib (BooleanLiteral b) args = Ret (b, None).
Proof.
  intros Hword. split; [|reflexivity].
  unfold Parse. cbn [parseExpr parseUnaryExpr].
  assert (Hscan : scanWithMapping k (NewParser [(scanner_Ident, txt)])
                  = Some (if b then TRUE else FALSE, txt,
                          mkParser [] scanner_Ident txt 0)).
  { unfold scanWithMapping. unfold scan. cbn. unfold mapIdent. rewrite Hword.
    destruct b; reflexivity. }
  rewrite Hscan. destruct b; reflexivity.
Qed.

End WordsMore.

Lemma Parse_Evaluate_boolean_word_witness :
  Parse noLibrary 2 [(scanner_Ident, "True")] = Some (Ret (BooleanLiteral true, None))
  /\ Evaluate noLibrary (BooleanLiteral true) ∅ = Ret (true, None).
Proof.
  apply (Parse_Evaluate_boolean_word noLibrary "True" true 0 ∅). reflexivity.
Defined.
